(** * MerkleSeal-VeriChain: batch credential ledger and DID registry

    A shallow embedding of the two Solidity contracts of the repository
    ([VCRegistry], [DIDRegistry]) and of the Merkle engine they rely on,
    with the properties of the specification proved about them.

    Conventions.  A Solidity [mapping(K => V)] is a total function that
    answers the zero value of [V] on a key never written.  A reverted call
    produces [Err] and no successor state.  Values of type [bytes32],
    [address] and [uint256] are the unsigned big-endian integers they
    denote, so the Solidity comparison [a < b] on [bytes32] is [Z.ltb]. *)

From Stdlib Require Import String Ascii.
From Stdlib Require Import ZArith Bool Lia Arith PeanoNat List.
Import ListNotations.
Local Open Scope Z_scope.

(* ================================================================= *)
(** ** Solidity base types *)

Module Solidity.

Definition address := Z.
Definition bytes32 := Z.
Definition uint256 := Z.

(** [address(0)], the value an unwritten [mapping(_ => address)] holds. *)
Definition address0 : address := 0.

(** [type(uint256).max]. *)
Definition MAX_UINT256 : Z := 2 ^ 256 - 1.

(** The ways a call can abort: [require(c, reason)], a checked-arithmetic
    panic, and the two custom errors of the access-control base. *)
Inductive error : Type :=
| Revert (reason : string)
| Panic (code : Z)
| AccessControlUnauthorizedAccount (account : address) (neededRole : bytes32)
| AccessControlBadConfirmation.

Inductive result (A : Type) : Type :=
| Ok (a : A)
| Err (e : error).
Arguments Ok {A} a.
Arguments Err {A} e.

Definition bind {A B} (r : result A) (k : A -> result B) : result B :=
  match r with
  | Ok a => k a
  | Err e => Err e
  end.

(** [require(cond, reason)]. *)
Definition require (cond : bool) (reason : string) : result unit :=
  if cond then Ok tt else Err (Revert reason).

(** Writing one slot of a mapping. *)
Definition upd {V : Type} (m : Z -> V) (k : Z) (v : V) : Z -> V :=
  fun k' => if k' =? k then v else m k'.

(** [abi.encodePacked] of one static value: [width] bytes, big-endian. *)
Fixpoint le_bytes (width : nat) (x : Z) : list Z :=
  match width with
  | O => []
  | S w => (x mod 256) :: le_bytes w (x / 256)
  end.

Definition be_bytes (width : nat) (x : Z) : list Z := rev (le_bytes width x).

(** The UTF-8 bytes of an ASCII string literal. *)
Definition bytes_of_string (s : string) : list Z :=
  map (fun c => Z.of_N (N_of_ascii c)) (list_ascii_of_string s).

End Solidity.
Import Solidity.

Notation "x <- r ;; k" := (bind r (fun x => k))
  (at level 61, r at next level, right associativity).
Notation "r ;;; k" := (bind r (fun _ => k))
  (at level 61, right associativity).

(* ================================================================= *)
(** ** MerkleEngine *)

Module MerkleEngine.

(** Modelled from the spec: the two rules section 4.1 allows for a level
    with an odd number of nodes (duplicate the last node, or carry it up
    unpaired); the tree builder itself is not among the repository files,
    and every property below holds under either rule. *)
Inductive OddPolicy : Type :=
| DuplicateLast
| CarryUnpaired.

Inductive ProofError : Type :=
| NotFound.

Definition MerkleProof := list bytes32.
Definition MerkleTree := list (list bytes32).

Section WithHash.

(** The chain's hash primitive, over a byte string. *)
Variable keccak256 : list Z -> bytes32.

(** Modelled from the spec: the interior-node rule of section 4.1,
    [hash(min(a,b) || max(a,b))]; it is the pair hash of the
    [MerkleProof] library the contract imports and of the tree the
    client builds with [sortPairs: true], neither of which is among
    the repository files. *)
Definition hashPair (a b : bytes32) : bytes32 :=
  if a <? b
  then keccak256 (be_bytes 32 a ++ be_bytes 32 b)
  else keccak256 (be_bytes 32 b ++ be_bytes 32 a).

(** Modelled from the spec: the path recomputation of [verifyProof]
    (section 4.1): the running hash starts at the leaf and is combined
    with each proof element in turn by the sorted-pair rule. *)
Definition processProof (proof : MerkleProof) (leaf : bytes32) : bytes32 :=
  fold_left hashPair proof leaf.

(** Modelled from the spec: [verifyProof(leaf, root, proof)] of section
    4.1, the [MerkleProof.verify(_proof, _merkleRoot, _leaf)] that
    [VCRegistry.verifyCredential] calls; the library is not among the
    repository files. *)
Definition verifyProof (leaf root : bytes32) (proof : MerkleProof) : bool :=
  processProof proof leaf =? root.

Variable odd : OddPolicy.

(** Modelled from the spec: one level of [buildTree] (sections 3 and
    4.1).  Pairing is positional, hashing inside a pair is sorted; the
    last node of an odd level follows the chosen [OddPolicy].  The tree
    builder ([MerkleTree] of the client's Merkle library) is not among
    the repository files. *)
Fixpoint nextLevel (nodes : list bytes32) : list bytes32 :=
  match nodes with
  | a :: b :: rest => hashPair a b :: nextLevel rest
  | [a] => [match odd with
            | DuplicateLast => hashPair a a
            | CarryUnpaired => a
            end]
  | [] => []
  end.

(** Modelled from the spec: the levels of the tree (section 3), built
    upwards until a level holds a single node. *)
Fixpoint buildLevels (fuel : nat) (nodes : list bytes32) : MerkleTree :=
  match fuel with
  | O => [nodes]
  | S fuel' =>
      match nodes with
      | _ :: _ :: _ => nodes :: buildLevels fuel' (nextLevel nodes)
      | _ => [nodes]
      end
  end.

(** Modelled from the spec: [buildTree(leaves)] of section 4.1: the
    sequence of levels, level 0 the leaves in input order, the last
    level the root alone.  A level of [n >= 2] nodes has a successor of
    [(n + 1) / 2] nodes, so [length leaves] rounds always suffice. *)
Definition buildTree (leaves : list bytes32) : MerkleTree :=
  buildLevels (length leaves) leaves.

(** Modelled from the spec: [rootOf(tree)], the single top node. *)
Definition rootOf (t : MerkleTree) : bytes32 :=
  hd 0 (last t []).

(** Modelled from the spec: the tree's leaf set, its level 0 (section 3). *)
Definition leavesOf (t : MerkleTree) : list bytes32 := hd [] t.

(** Modelled from the spec: the sibling that a node at [index] contributes
    to a proof (section 3, [MerkleProof]): the other node of its pair; for the unpaired last node of an odd level, itself
    under [DuplicateLast] and nothing under [CarryUnpaired]. *)
Definition sibling (level : list bytes32) (index : nat) : list bytes32 :=
  let pairIndex := if Nat.odd index then (index - 1)%nat else (index + 1)%nat in
  match nth_error level pairIndex with
  | Some s => [s]
  | None =>
      match odd with
      | DuplicateLast =>
          match nth_error level index with
          | Some x => [x]
          | None => []
          end
      | CarryUnpaired => []
      end
  end.

(** Modelled from the spec: the proof of the leaf at position [index]
    (section 3: the sibling hashes from leaf to root).  The root level
    contributes nothing. *)
Fixpoint proofAt (t : MerkleTree) (index : nat) : MerkleProof :=
  match t with
  | [] => []
  | level :: upper =>
      match upper with
      | [] => []
      | _ :: _ => sibling level index ++ proofAt upper (index / 2)
      end
  end.

(** Modelled from the spec: the positions of [leaf] in [leaves], compared
    by value (section 4.1, [proofFor]), counted from [from]. *)
Fixpoint positions (leaf : bytes32) (leaves : list bytes32) (from : nat) : list nat :=
  match leaves with
  | [] => []
  | x :: rest =>
      if x =? leaf
      then from :: positions leaf rest (S from)
      else positions leaf rest (S from)
  end.

(** Modelled from the spec: [proofFor(tree, leaf)] of section 4.1.  The
    leaf is looked up by value; it fails with [NotFound] when the value
    is absent or occurs more than once.  Proof generation
    ([getHexProof] of the client's Merkle library) is not among the
    repository files. *)
Definition proofFor (t : MerkleTree) (leaf : bytes32) : ProofError + MerkleProof :=
  match positions leaf (leavesOf t) 0 with
  | [i] => inr (proofAt t i)
  | _ => inl NotFound
  end.

End WithHash.

End MerkleEngine.

(* ================================================================= *)
(** ** BatchLedger: the contract [VCRegistry] *)

Module VCRegistry.

Inductive event : Type :=
| RoleGranted (role : bytes32) (account sender : address)
| RoleRevoked (role : bytes32) (account sender : address)
| BatchCredentialsIssued (merkleRoot : bytes32) (issuer : address)
| BatchCredentialRevoked (leaf merkleRoot : bytes32) (revoker : address).

(** Contract storage, and the log of emitted events (oldest first). *)
Record state : Type := mkState {
  _roles : bytes32 -> address -> bool;
  merkleRootToIssuer : bytes32 -> address;
  isBatchCredentialRevoked : bytes32 -> bool;
  logs : list event
}.

(** The specification's names for the contract's revert reasons. *)
Definition DuplicateRoot : error := Revert "VCRegistry: Merkle root already exists".
Definition UnknownRoot : error := Revert "VCRegistry: Merkle root does not exist".
Definition NotAuthorized : error := Revert "VCRegistry: Caller is not the batch issuer".
Definition AlreadyRevoked : error := Revert "VCRegistry: Credential already revoked".

Definition DEFAULT_ADMIN_ROLE : bytes32 := 0.

Definition empty : state :=
  {| _roles := fun _ _ => false;
     merkleRootToIssuer := fun _ => address0;
     isBatchCredentialRevoked := fun _ => false;
     logs := [] |}.

Section WithHash.

Variable keccak256 : list Z -> bytes32.

Definition ISSUER_ROLE : bytes32 := keccak256 (bytes_of_string "ISSUER_ROLE").

(** *** The access-control base

    Modelled from the spec: the issuer and admin roles of section 9, held
    by the access-control base that [VCRegistry] inherits ([VCRegistry is
    AccessControl]): the role table, the [onlyRole] guard and the
    inherited entry points [grantRole], [revokeRole], [renounceRole].  The
    base contract is an imported library, not among the repository files;
    it is modelled as the contract and its tests rely on it.  No role ever
    gets an admin role other than [DEFAULT_ADMIN_ROLE], since the contract
    never sets one. *)

Definition hasRole (s : state) (role : bytes32) (account : address) : bool :=
  _roles s role account.

Definition onlyRole (s : state) (role : bytes32) (sender : address) : result unit :=
  if hasRole s role sender then Ok tt
  else Err (AccessControlUnauthorizedAccount sender role).

Definition _grantRole (s : state) (sender : address) (role : bytes32) (account : address) : state :=
  if hasRole s role account then s
  else {| _roles := upd (_roles s) role (upd (_roles s role) account true);
          merkleRootToIssuer := merkleRootToIssuer s;
          isBatchCredentialRevoked := isBatchCredentialRevoked s;
          logs := logs s ++ [RoleGranted role account sender] |}.

Definition _revokeRole (s : state) (sender : address) (role : bytes32) (account : address) : state :=
  if hasRole s role account
  then {| _roles := upd (_roles s) role (upd (_roles s role) account false);
          merkleRootToIssuer := merkleRootToIssuer s;
          isBatchCredentialRevoked := isBatchCredentialRevoked s;
          logs := logs s ++ [RoleRevoked role account sender] |}
  else s.

Definition grantRole (s : state) (sender : address) (role : bytes32) (account : address) : result state :=
  onlyRole s DEFAULT_ADMIN_ROLE sender ;;;
  Ok (_grantRole s sender role account).

Definition revokeRole (s : state) (sender : address) (role : bytes32) (account : address) : result state :=
  onlyRole s DEFAULT_ADMIN_ROLE sender ;;;
  Ok (_revokeRole s sender role account).

Definition renounceRole (s : state) (sender : address) (role : bytes32) (callerConfirmation : address) : result state :=
  if callerConfirmation =? sender
  then Ok (_revokeRole s sender role callerConfirmation)
  else Err AccessControlBadConfirmation.

(** *** The contract *)

(** The deployer gets both admin and issuer roles. *)
Definition constructor (deployer : address) : state :=
  _grantRole (_grantRole empty deployer DEFAULT_ADMIN_ROLE deployer)
             deployer ISSUER_ROLE deployer.

Definition grantIssuerRole (s : state) (sender : address) (_issuer : address) : result state :=
  onlyRole s DEFAULT_ADMIN_ROLE sender ;;;
  grantRole s sender ISSUER_ROLE _issuer.

Definition revokeIssuerRole (s : state) (sender : address) (_issuer : address) : result state :=
  onlyRole s DEFAULT_ADMIN_ROLE sender ;;;
  revokeRole s sender ISSUER_ROLE _issuer.

Definition issueBatchCredentials (s : state) (sender : address) (_merkleRoot : bytes32) : result state :=
  onlyRole s ISSUER_ROLE sender ;;;
  require (merkleRootToIssuer s _merkleRoot =? address0)
          "VCRegistry: Merkle root already exists" ;;;
  Ok {| _roles := _roles s;
        merkleRootToIssuer := upd (merkleRootToIssuer s) _merkleRoot sender;
        isBatchCredentialRevoked := isBatchCredentialRevoked s;
        logs := logs s ++ [BatchCredentialsIssued _merkleRoot sender] |}.

Definition revokeBatchCredential (s : state) (sender : address) (_leaf _merkleRoot : bytes32) : result state :=
  let issuer := merkleRootToIssuer s _merkleRoot in
  require (negb (issuer =? address0)) "VCRegistry: Merkle root does not exist" ;;;
  require (sender =? issuer) "VCRegistry: Caller is not the batch issuer" ;;;
  require (negb (isBatchCredentialRevoked s _leaf)) "VCRegistry: Credential already revoked" ;;;
  Ok {| _roles := _roles s;
        merkleRootToIssuer := merkleRootToIssuer s;
        isBatchCredentialRevoked := upd (isBatchCredentialRevoked s) _leaf true;
        logs := logs s ++ [BatchCredentialRevoked _leaf _merkleRoot sender] |}.

(** A [view] function: it reads the state and has no successor state.  The
    result is in [result] because a Solidity call may revert; that this one
    never does is a theorem below.  The [console.log] line has no effect on
    the contract. *)
Definition verifyCredential (s : state) (_leaf _merkleRoot : bytes32) (_proof : list bytes32) : result (bool * address) :=
  if isBatchCredentialRevoked s _leaf then Ok (false, address0)
  else
    let issuer := merkleRootToIssuer s _merkleRoot in
    if issuer =? address0 then Ok (false, address0)
    else
      let isValid := MerkleEngine.verifyProof keccak256 _leaf _merkleRoot _proof in
      if isValid then Ok (true, issuer) else Ok (false, address0).

(** *** Transactions *)

Inductive call : Type :=
| GrantRole (role : bytes32) (account : address)
| RevokeRole (role : bytes32) (account : address)
| RenounceRole (role : bytes32) (callerConfirmation : address)
| GrantIssuerRole (_issuer : address)
| RevokeIssuerRole (_issuer : address)
| IssueBatchCredentials (_merkleRoot : bytes32)
| RevokeBatchCredential (_leaf _merkleRoot : bytes32).

Definition dispatch (s : state) (sender : address) (c : call) : result state :=
  match c with
  | GrantRole role account => grantRole s sender role account
  | RevokeRole role account => revokeRole s sender role account
  | RenounceRole role confirmation => renounceRole s sender role confirmation
  | GrantIssuerRole a => grantIssuerRole s sender a
  | RevokeIssuerRole a => revokeIssuerRole s sender a
  | IssueBatchCredentials root => issueBatchCredentials s sender root
  | RevokeBatchCredential leaf root => revokeBatchCredential s sender leaf root
  end.

(** One transaction ([msg.sender], call): a reverted call leaves the state
    as it was. *)
Definition exec (s : state) (tx : address * call) : state :=
  match dispatch s (fst tx) (snd tx) with
  | Ok s' => s'
  | Err _ => s
  end.

(** The ledger executes one transaction at a time, in order. *)
Definition run (s : state) (txs : list (address * call)) : state :=
  fold_left exec txs s.

End WithHash.

End VCRegistry.

(* ================================================================= *)
(** ** IdentityLedger: the contract [DIDRegistry] *)

Module DIDRegistry.

Inductive Status : Type :=
| Active
| Revoked.

Record DIDDocument : Type := mkDoc {
  controller : address;
  cid : string;
  status : Status
}.

Inductive event : Type :=
| DIDRegistered (did : bytes32) (controller : address) (cid : string)
| DIDUpdated (did : bytes32) (newCid : string)
| DIDRevoked (did : bytes32).

Record state : Type := mkState {
  dids : bytes32 -> DIDDocument;
  nonces : address -> uint256;
  ownerToDIDs : address -> list bytes32;
  logs : list event
}.

(** The specification's names for the contract's revert reasons.  The
    contract words the revoked-status failure differently in [updateDID]
    and in [revokeDID]. *)
Definition CollisionDetected : error := Revert "DIDRegistry: DID already exists".
Definition NotFound : error := Revert "DIDRegistry: DID does not exist".
Definition AlreadyRevoked : error := Revert "DIDRegistry: DID is revoked".
Definition AlreadyRevoked_revoke : error := Revert "DIDRegistry: DID is already revoked".

Definition empty : state :=
  {| dids := fun _ => {| controller := address0; cid := EmptyString; status := Active |};
     nonces := fun _ => 0;
     ownerToDIDs := fun _ => [];
     logs := [] |}.

Definition isActive (st : Status) : bool :=
  match st with
  | Active => true
  | Revoked => false
  end.

Section WithHash.

Variable keccak256 : list Z -> bytes32.

(** [keccak256(abi.encodePacked(msg.sender, userNonce))]. *)
Definition deriveDID (sender : address) (userNonce : uint256) : bytes32 :=
  keccak256 (be_bytes 20 sender ++ be_bytes 32 userNonce).

(** [nonces[msg.sender]++] is checked arithmetic: it panics (code 0x11) at
    [type(uint256).max]. *)
Definition checkedIncrement (n : uint256) : result uint256 :=
  if MAX_UINT256 <=? n then Err (Panic 17) else Ok (n + 1).

Definition createDID (s : state) (sender : address) (_cid : string) : result state :=
  let userNonce := nonces s sender in
  let did := deriveDID sender userNonce in
  require (controller (dids s did) =? address0) "DIDRegistry: DID already exists" ;;;
  let dids' := upd (dids s) did {| controller := sender; cid := _cid; status := Active |} in
  newNonce <- checkedIncrement userNonce ;;
  Ok {| dids := dids';
        nonces := upd (nonces s) sender newNonce;
        ownerToDIDs := upd (ownerToDIDs s) sender (ownerToDIDs s sender ++ [did]);
        logs := logs s ++ [DIDRegistered did sender _cid] |}.

Definition updateDID (s : state) (sender : address) (_did : bytes32) (_newCid : string) : result state :=
  let doc := dids s _did in
  require (negb (controller doc =? address0)) "DIDRegistry: DID does not exist" ;;;
  require (controller doc =? sender) "DIDRegistry: Caller is not the controller" ;;;
  require (isActive (status doc)) "DIDRegistry: DID is revoked" ;;;
  Ok {| dids := upd (dids s) _did {| controller := controller doc; cid := _newCid; status := status doc |};
        nonces := nonces s;
        ownerToDIDs := ownerToDIDs s;
        logs := logs s ++ [DIDUpdated _did _newCid] |}.

Definition revokeDID (s : state) (sender : address) (_did : bytes32) : result state :=
  let doc := dids s _did in
  require (negb (controller doc =? address0)) "DIDRegistry: DID does not exist" ;;;
  require (controller doc =? sender) "DIDRegistry: Caller is not the controller" ;;;
  require (isActive (status doc)) "DIDRegistry: DID is already revoked" ;;;
  Ok {| dids := upd (dids s) _did {| controller := controller doc; cid := cid doc; status := Revoked |};
        nonces := nonces s;
        ownerToDIDs := ownerToDIDs s;
        logs := logs s ++ [DIDRevoked _did] |}.

(** [view] functions. *)
Definition resolveDID (s : state) (_did : bytes32) : result (address * string * Status) :=
  let doc := dids s _did in
  require (negb (controller doc =? address0)) "DIDRegistry: DID does not exist" ;;;
  Ok (controller doc, cid doc, status doc).

Definition getDIDsByOwner (s : state) (_owner : address) : list bytes32 :=
  ownerToDIDs s _owner.

(** *** Transactions *)

Inductive call : Type :=
| CreateDID (_cid : string)
| UpdateDID (_did : bytes32) (_newCid : string)
| RevokeDID (_did : bytes32).

Definition dispatch (s : state) (sender : address) (c : call) : result state :=
  match c with
  | CreateDID c => createDID s sender c
  | UpdateDID d c => updateDID s sender d c
  | RevokeDID d => revokeDID s sender d
  end.

Definition exec (s : state) (tx : address * call) : state :=
  match dispatch s (fst tx) (snd tx) with
  | Ok s' => s'
  | Err _ => s
  end.

Definition run (s : state) (txs : list (address * call)) : state :=
  fold_left exec txs s.

End WithHash.

End DIDRegistry.

(* ================================================================= *)
(** ** The contract [VerifiableCredential]

    The single-credential registry of the repository: an owner keeps a set
    of trusted issuers, a trusted issuer records a credential under an
    identifier of its choice, the issuer of a credential may revoke it. *)

Module VerifiableCredential.

Record Credential : Type := mkCredential {
  issuer : address;
  subjectDID : bytes32;
  ipfsHash : string;
  revoked : bool
}.

Inductive event : Type :=
| CredentialIssued (credentialId : bytes32) (issuer : address) (subjectDID : bytes32)
| CredentialRevoked (credentialId : bytes32)
| IssuerAdded (issuer : address)
| IssuerRemoved (issuer : address).

Record state : Type := mkState {
  _credentials : bytes32 -> Credential;
  trustedIssuers : address -> bool;
  owner : address;
  logs : list event
}.

(** The contract's revert reasons. *)
Definition NotOwner : error := Revert "VC: Caller is not the owner".
Definition NotTrustedIssuer : error := Revert "VC: Caller is not a trusted issuer".
Definition IssuerAlreadyTrusted : error := Revert "VC: Issuer already trusted".
Definition IssuerNotTrusted : error := Revert "VC: Issuer not trusted".
Definition CredentialExists : error := Revert "VC: Credential ID already exists".
Definition NotIssuer : error := Revert "VC: Caller is not the issuer".
Definition CredentialAlreadyRevoked : error := Revert "VC: Credential already revoked".

(** The deployer owns the contract and is the first trusted issuer. *)
Definition constructor (deployer : address) : state :=
  {| _credentials := fun _ => {| issuer := address0; subjectDID := 0;
                                 ipfsHash := EmptyString; revoked := false |};
     trustedIssuers := upd (fun _ => false) deployer true;
     owner := deployer;
     logs := [] |}.

Definition onlyOwner (s : state) (sender : address) : result unit :=
  require (sender =? owner s) "VC: Caller is not the owner".

Definition onlyTrustedIssuer (s : state) (sender : address) : result unit :=
  require (trustedIssuers s sender) "VC: Caller is not a trusted issuer".

Definition addIssuer (s : state) (sender : address) (_issuer : address) : result state :=
  onlyOwner s sender ;;;
  require (negb (trustedIssuers s _issuer)) "VC: Issuer already trusted" ;;;
  Ok {| _credentials := _credentials s;
        trustedIssuers := upd (trustedIssuers s) _issuer true;
        owner := owner s;
        logs := logs s ++ [IssuerAdded _issuer] |}.

Definition removeIssuer (s : state) (sender : address) (_issuer : address) : result state :=
  onlyOwner s sender ;;;
  require (trustedIssuers s _issuer) "VC: Issuer not trusted" ;;;
  Ok {| _credentials := _credentials s;
        trustedIssuers := upd (trustedIssuers s) _issuer false;
        owner := owner s;
        logs := logs s ++ [IssuerRemoved _issuer] |}.

Definition issueCredential (s : state) (sender : address)
    (credentialId subject : bytes32) (hash : string) : result state :=
  onlyTrustedIssuer s sender ;;;
  require (issuer (_credentials s credentialId) =? address0)
          "VC: Credential ID already exists" ;;;
  Ok {| _credentials := upd (_credentials s) credentialId
                            {| issuer := sender; subjectDID := subject;
                               ipfsHash := hash; revoked := false |};
        trustedIssuers := trustedIssuers s;
        owner := owner s;
        logs := logs s ++ [CredentialIssued credentialId sender subject] |}.

Definition revokeCredential (s : state) (sender : address) (credentialId : bytes32) : result state :=
  let cred := _credentials s credentialId in
  require (issuer cred =? sender) "VC: Caller is not the issuer" ;;;
  require (negb (revoked cred)) "VC: Credential already revoked" ;;;
  Ok {| _credentials := upd (_credentials s) credentialId
                            {| issuer := issuer cred; subjectDID := subjectDID cred;
                               ipfsHash := ipfsHash cred; revoked := true |};
        trustedIssuers := trustedIssuers s;
        owner := owner s;
        logs := logs s ++ [CredentialRevoked credentialId] |}.

(** A [view] function without any [require]: (isValid, issuer, ipfsHash). *)
Definition verifyCredential (s : state) (credentialId : bytes32) : bool * address * string :=
  let cred := _credentials s credentialId in
  if (issuer cred =? address0) || revoked cred
  then (false, address0, EmptyString)
  else (true, issuer cred, ipfsHash cred).

Inductive call : Type :=
| AddIssuer (_issuer : address)
| RemoveIssuer (_issuer : address)
| IssueCredential (credentialId subject : bytes32) (hash : string)
| RevokeCredential (credentialId : bytes32).

Definition dispatch (s : state) (sender : address) (c : call) : result state :=
  match c with
  | AddIssuer a => addIssuer s sender a
  | RemoveIssuer a => removeIssuer s sender a
  | IssueCredential id subject hash => issueCredential s sender id subject hash
  | RevokeCredential id => revokeCredential s sender id
  end.

Definition exec (s : state) (tx : address * call) : state :=
  match dispatch s (fst tx) (snd tx) with
  | Ok s' => s'
  | Err _ => s
  end.

Definition run (s : state) (txs : list (address * call)) : state :=
  fold_left exec txs s.

End VerifiableCredential.

(* ================================================================= *)
(** ** The client: what the React components compute *)

Module Frontend.

(** [ConnectWalletButton.formatAddress]: the first six characters, three
    dots, the last four.  [substring(k)] of JavaScript runs to the end of
    the string and treats a negative index as zero. *)
Definition formatAddress (addr : string) : string :=
  let start := (String.length addr - 4)%nat in
  (substring 0 6 addr
   ++ "..."
   ++ substring start (String.length addr - start) addr)%string.

(** [DIDManagement.fetchUserDID]: the identifier the page shows for an
    account is the first entry of [getDIDsByOwner], or none. *)
Definition fetchUserDID (s : DIDRegistry.state) (account : address) : option bytes32 :=
  match DIDRegistry.getDIDsByOwner s account with
  | did :: _ => Some did
  | [] => None
  end.

(** *** The credential form and the batch under construction *)

Record FormData : Type := mkFormData {
  userDid : string;
  name : string;
  degree : string
}.

Inductive Field : Type :=
| UserDidField
| NameField
| DegreeField.

(** The form as it is after a reset. *)
Definition blankForm : FormData :=
  {| userDid := EmptyString; name := EmptyString; degree := "Bachelor" |}.

(** The state of the two components: [formData] of [CredentialForm] and
    [credentialsToIssue] of [VCApplication]. *)
Record ui : Type := mkUi {
  formData : FormData;
  credentialsToIssue : list FormData
}.

Definition initialUi : ui :=
  {| formData := blankForm; credentialsToIssue := [] |}.

(** A JavaScript string is truthy when it is not empty. *)
Definition truthy (s : string) : bool :=
  negb (String.eqb s EmptyString).

(** [setFormData({ ...formData, [e.target.name]: e.target.value })]. *)
Definition handleInputChange (u : ui) (field : Field) (value : string) : ui :=
  let f := formData u in
  {| formData :=
       match field with
       | UserDidField => {| userDid := value; name := name f; degree := degree f |}
       | NameField => {| userDid := userDid f; name := value; degree := degree f |}
       | DegreeField => {| userDid := userDid f; name := name f; degree := value |}
       end;
     credentialsToIssue := credentialsToIssue u |}.

(** [addCredentialToBatch]: the batch with one more credential at its end. *)
Definition addCredentialToBatch (u : ui) (credentialData : FormData) : ui :=
  {| formData := formData u;
     credentialsToIssue := credentialsToIssue u ++ [credentialData] |}.

(** [handleAddClick]: with a recipient DID and a name the form is added to
    the batch and reset; otherwise nothing changes (an alert is shown). *)
Definition handleAddClick (u : ui) : ui :=
  if truthy (userDid (formData u)) && truthy (name (formData u))
  then {| formData := blankForm;
          credentialsToIssue := credentialsToIssue (addCredentialToBatch u (formData u)) |}
  else u.

(** [handleIssueBatch], as far as the batch is concerned: nothing happens
    on an empty batch; the batch is emptied once the transaction has been
    confirmed, and kept when the transaction fails. *)
Definition handleIssueBatch (u : ui) (confirmed : bool) : ui :=
  match credentialsToIssue u with
  | [] => u
  | _ :: _ =>
      if confirmed
      then {| formData := formData u; credentialsToIssue := [] |}
      else u
  end.

Inductive uiEvent : Type :=
| InputChange (field : Field) (value : string)
| AddClick
| IssueBatch (confirmed : bool).

Definition handle (u : ui) (e : uiEvent) : ui :=
  match e with
  | InputChange field value => handleInputChange u field value
  | AddClick => handleAddClick u
  | IssueBatch confirmed => handleIssueBatch u confirmed
  end.

Definition handleAll (u : ui) (events : list uiEvent) : ui :=
  fold_left handle events u.

End Frontend.

(* ================================================================= *)
(** ** A concrete hash for running the definitions

    Any function of the right type can stand for the hash primitive; this
    small one is used wherever a statement is evaluated on concrete data. *)

Module Sample.

Definition toyHash (bs : list Z) : bytes32 :=
  fold_left (fun acc b => (acc * 31 + b + 1) mod 2 ^ 256) bs 7.

(** A hash on which everything collides. *)
Definition constHash (bs : list Z) : bytes32 := 5.

(** Two batches of credential hashes, their trees and roots. *)
Definition batchA : list bytes32 := [10; 20; 30].
Definition batchB : list bytes32 := [40; 50].

Definition treeA : MerkleEngine.MerkleTree :=
  MerkleEngine.buildTree toyHash MerkleEngine.CarryUnpaired batchA.
Definition treeB : MerkleEngine.MerkleTree :=
  MerkleEngine.buildTree toyHash MerkleEngine.CarryUnpaired batchB.

Definition rootA : bytes32 := MerkleEngine.rootOf treeA.
Definition rootB : bytes32 := MerkleEngine.rootOf treeB.

Definition proofA (index : nat) : MerkleEngine.MerkleProof :=
  MerkleEngine.proofAt MerkleEngine.CarryUnpaired treeA index.
Definition proofB (index : nat) : MerkleEngine.MerkleProof :=
  MerkleEngine.proofAt MerkleEngine.CarryUnpaired treeB index.

Definition deployer : address := 1.
Definition issuer2 : address := 2.
Definition outsider : address := 3.

(** The ledger after the deployer made [issuer2] an issuer and each of the
    two published a batch. *)
Definition published : VCRegistry.state :=
  VCRegistry.run toyHash (VCRegistry.constructor toyHash deployer)
    [ (deployer, VCRegistry.GrantIssuerRole issuer2);
      (deployer, VCRegistry.IssueBatchCredentials rootA);
      (issuer2, VCRegistry.IssueBatchCredentials rootB) ].

(** ... and after the deployer revoked the first leaf of its own batch. *)
Definition revokedA : VCRegistry.state :=
  VCRegistry.exec toyHash published (deployer, VCRegistry.RevokeBatchCredential 10 rootA).

(** The identity ledger after [deployer] registered one identifier. *)
Definition registered : DIDRegistry.state :=
  DIDRegistry.exec toyHash DIDRegistry.empty (deployer, DIDRegistry.CreateDID "QmA").

Definition firstDID : bytes32 := DIDRegistry.deriveDID toyHash deployer 0.

(** Under [constHash], the ledger after [deployer] registered one
    identifier: every later derivation hits it. *)
Definition collided : DIDRegistry.state :=
  DIDRegistry.exec constHash DIDRegistry.empty (deployer, DIDRegistry.CreateDID "QmA").

End Sample.

(** The identifiers an account derives at the nonces 0, 1, ..., [n - 1],
    in that order: what the reverse index of [DIDRegistry] is compared
    with. *)

Module DIDIndex.

Definition derivedUpTo (keccak256 : list Z -> bytes32) (a : address) (n : uint256) : list bytes32 :=
  map (fun k => DIDRegistry.deriveDID keccak256 a (Z.of_nat k)) (seq 0 (Z.to_nat n)).

End DIDIndex.

(** The entry points of [VCRegistry] that manage roles, as opposed to the
    two that write the ledger. *)

Module VCRegistryCalls.

Definition roleCall (c : VCRegistry.call) : bool :=
  match c with
  | VCRegistry.IssueBatchCredentials _ => false
  | VCRegistry.RevokeBatchCredential _ _ => false
  | _ => true
  end.

(** The ledger agrees with its log: a leaf is marked revoked exactly when
    a revocation event for it is in the log; the revoker of a logged
    revocation is the recorded issuer of its root; a root with an issuer
    has its publication event in the log. *)
Definition logged (s : VCRegistry.state) : Prop :=
  (forall l, VCRegistry.isBatchCredentialRevoked s l = true
             <-> exists r a, In (VCRegistry.BatchCredentialRevoked l r a) (VCRegistry.logs s))
  /\ (forall l r a, In (VCRegistry.BatchCredentialRevoked l r a) (VCRegistry.logs s) ->
        a <> address0 /\ VCRegistry.merkleRootToIssuer s r = a)
  /\ (forall r, VCRegistry.merkleRootToIssuer s r <> address0 ->
        In (VCRegistry.BatchCredentialsIssued r (VCRegistry.merkleRootToIssuer s r))
           (VCRegistry.logs s)).

End VCRegistryCalls.

(** The deployment script: what its [main] does on the chain. *)

Module Deploy.

(** [main]: deploy [DIDRegistry], deploy [VCRegistry], send
    [grantRole(ISSUER_ROLE, deployer)] and wait for it, then read
    [hasRole(ISSUER_ROLE, deployer)].  The result is the two deployed
    contracts and the value read; the script stops at a reverted
    transaction. *)
Definition main (keccak256 : list Z -> bytes32) (deployer : address)
    : result (DIDRegistry.state * VCRegistry.state * bool) :=
  let didRegistry := DIDRegistry.empty in
  let vcRegistry := VCRegistry.constructor keccak256 deployer in
  let issuerRole := VCRegistry.ISSUER_ROLE keccak256 in
  granted <- VCRegistry.grantRole vcRegistry deployer issuerRole deployer ;;
  let hasRole := VCRegistry.hasRole granted issuerRole deployer in
  Ok (didRegistry, granted, hasRole).

End Deploy.

(** Concrete states of the credential registry. *)

Module SampleCredentials.

Definition admin : address := 1.
Definition university : address := 2.
Definition stranger : address := 3.

Definition diploma : bytes32 := 100.
Definition student : bytes32 := 500.

(** The registry after the owner trusted [university]. *)
Definition trusting : VerifiableCredential.state :=
  VerifiableCredential.exec (VerifiableCredential.constructor admin)
    (admin, VerifiableCredential.AddIssuer university).

(** ... and after [university] issued [diploma] to [student]. *)
Definition issued : VerifiableCredential.state :=
  VerifiableCredential.exec trusting
    (university, VerifiableCredential.IssueCredential diploma student "QmDiploma").

(** ... and after [university] revoked it. *)
Definition withdrawn : VerifiableCredential.state :=
  VerifiableCredential.exec issued
    (university, VerifiableCredential.RevokeCredential diploma).

End SampleCredentials.

(* ================================================================= *)
(** ** Proof automation *)

(** Unfolding the entry points of each contract down to their guards. *)
Ltac unfold_vc :=
  unfold VCRegistry.dispatch, VCRegistry.grantIssuerRole, VCRegistry.revokeIssuerRole,
    VCRegistry.grantRole, VCRegistry.revokeRole, VCRegistry.renounceRole,
    VCRegistry.issueBatchCredentials, VCRegistry.revokeBatchCredential,
    VCRegistry.onlyRole, VCRegistry._grantRole, VCRegistry._revokeRole,
    bind, require in *.

(** Case analysis on every guard met on the way to [H : _ = Ok _]. *)
Ltac split_guards H :=
  repeat match type of H with
         | context [if ?b then _ else _] => destruct b eqn:?; try discriminate H
         end.

Ltac unfold_did :=
  unfold DIDRegistry.dispatch, DIDRegistry.createDID, DIDRegistry.updateDID,
    DIDRegistry.revokeDID, DIDRegistry.resolveDID, DIDRegistry.checkedIncrement,
    DIDRegistry.getDIDsByOwner, bind, require in *.

Ltac unfold_cred :=
  unfold VerifiableCredential.dispatch, VerifiableCredential.addIssuer,
    VerifiableCredential.removeIssuer, VerifiableCredential.issueCredential,
    VerifiableCredential.revokeCredential, VerifiableCredential.onlyOwner,
    VerifiableCredential.onlyTrustedIssuer, bind, require in *.

(* ================================================================= *)
(** ** Properties of the Merkle engine *)

Section MerkleEngineFacts.

Variable keccak256 : list Z -> bytes32.
Variable odd : MerkleEngine.OddPolicy.

Local Abbreviation hashPair := (MerkleEngine.hashPair keccak256).
Local Abbreviation processProof := (MerkleEngine.processProof keccak256).
Local Abbreviation verifyProof := (MerkleEngine.verifyProof keccak256).
Local Abbreviation nextLevel := (MerkleEngine.nextLevel keccak256 odd).
Local Abbreviation buildLevels := (MerkleEngine.buildLevels keccak256 odd).
Local Abbreviation buildTree := (MerkleEngine.buildTree keccak256 odd).
Local Abbreviation sibling := (MerkleEngine.sibling odd).
Local Abbreviation proofAt := (MerkleEngine.proofAt odd).
Local Abbreviation proofFor := (MerkleEngine.proofFor odd).

Lemma list_pair_ind (A : Type) (P : list A -> Prop) :
  P [] -> (forall a, P [a]) -> (forall a b l, P l -> P (a :: b :: l)) ->
  forall l, P l.
Proof.
  intros Hnil Hone Hpair. fix IH 1.
  intros [|a [|b l]]; [exact Hnil | apply Hone | apply Hpair, IH].
Qed.

(** Sorting the pair makes the order of the two operands irrelevant. *)
Lemma hashPair_comm (a b : bytes32) : hashPair a b = hashPair b a.
Proof.
  unfold MerkleEngine.hashPair.
  destruct (Z.ltb_spec a b), (Z.ltb_spec b a); try reflexivity; try lia.
  assert (a = b) by lia. now subst.
Qed.

Lemma half_SS (j : nat) : (S (S j) / 2 = S (j / 2))%nat.
Proof.
  replace (S (S j)) with (j + 1 * 2)%nat by lia.
  rewrite Nat.div_add by lia. lia.
Qed.

Lemma sibling_SS (a b : bytes32) (rest : list bytes32) (j : nat) :
  sibling (a :: b :: rest) (S (S j)) = sibling rest j.
Proof.
  unfold MerkleEngine.sibling.
  rewrite Nat.odd_succ_succ.
  destruct (Nat.odd j) eqn:Hodd.
  - destruct j as [|j]; [discriminate|].
    replace (S (S (S j)) - 1)%nat with (S (S j)) by lia.
    replace (S j - 1)%nat with j by lia.
    reflexivity.
  - replace (S (S j) + 1)%nat with (S (S (j + 1))) by lia.
    reflexivity.
Qed.

(** The node above position [i] is the running hash after the sibling of
    [i] has been folded in. *)
Lemma nextLevel_parent (nodes : list bytes32) :
  forall i x, nth_error nodes i = Some x ->
    nth_error (nextLevel nodes) (i / 2) = Some (fold_left hashPair (sibling nodes i) x).
Proof.
  induction nodes as [|a|a b rest IH] using list_pair_ind; intros i x Hi.
  - destruct i; discriminate.
  - destruct i as [|i]; [|destruct i; discriminate].
    injection Hi as <-. unfold MerkleEngine.sibling. cbn.
    destruct odd; reflexivity.
  - destruct i as [|[|j]].
    + injection Hi as <-. reflexivity.
    + injection Hi as <-. cbn. now rewrite hashPair_comm.
    + rewrite half_SS, sibling_SS.
      change (nth_error (nextLevel (a :: b :: rest)) (S (j / 2)))
        with (nth_error (nextLevel rest) (j / 2)).
      apply IH. exact Hi.
Qed.

Lemma nextLevel_length (nodes : list bytes32) :
  (2 * length (nextLevel nodes) <= length nodes + 1)%nat.
Proof.
  induction nodes as [|a|a b rest IH] using list_pair_ind; cbn [MerkleEngine.nextLevel length]; lia.
Qed.

Lemma buildLevels_nonempty (fuel : nat) (nodes : list bytes32) :
  buildLevels fuel nodes <> [].
Proof. destruct fuel; [discriminate|]. destruct nodes as [|a [|b l]]; discriminate. Qed.

Lemma buildLevels_hd (fuel : nat) (nodes : list bytes32) :
  MerkleEngine.leavesOf (buildLevels fuel nodes) = nodes.
Proof. destruct fuel; [reflexivity|]. destruct nodes as [|a [|b l]]; reflexivity. Qed.

Lemma rootOf_cons (level : list bytes32) (upper : MerkleEngine.MerkleTree) :
  upper <> [] -> MerkleEngine.rootOf (level :: upper) = MerkleEngine.rootOf upper.
Proof. unfold MerkleEngine.rootOf. destruct upper; [congruence|reflexivity]. Qed.

(** Folding the proof of position [i] into the node at [i] climbs to the
    root, whenever the fuel covers the height of the tree. *)
Lemma proofAt_climbs (fuel : nat) :
  forall nodes i x,
    (length nodes <= S fuel)%nat ->
    nth_error nodes i = Some x ->
    processProof (proofAt (buildLevels fuel nodes) i) x
    = MerkleEngine.rootOf (buildLevels fuel nodes).
Proof.
  induction fuel as [|fuel IH]; intros nodes i x Hlen Hi.
  - destruct nodes as [|a [|b l]]; cbn in Hlen; try lia.
    + destruct i; discriminate.
    + destruct i as [|i]; [|destruct i; discriminate].
      injection Hi as <-. reflexivity.
  - destruct nodes as [|a [|b l]].
    + destruct i; discriminate.
    + destruct i as [|i]; [|destruct i; discriminate].
      injection Hi as <-. reflexivity.
    + cbn [MerkleEngine.buildLevels].
      remember (a :: b :: l) as nodes eqn:Hn.
      pose proof (buildLevels_nonempty fuel (nextLevel nodes)) as Hne.
      rewrite rootOf_cons by exact Hne.
      cbn [MerkleEngine.proofAt].
      destruct (buildLevels fuel (nextLevel nodes)) as [|lv up] eqn:Hup; [congruence|].
      unfold MerkleEngine.processProof. rewrite fold_left_app.
      rewrite <- Hup.
      apply (IH (nextLevel nodes) (i / 2)%nat).
      * pose proof (nextLevel_length nodes). subst nodes. cbn [length] in *. lia.
      * apply nextLevel_parent. exact Hi.
Qed.

Lemma nextLevel_nonempty (nodes : list bytes32) :
  nodes <> [] -> nextLevel nodes <> [].
Proof. destruct nodes as [|a [|b l]]; [congruence | discriminate | discriminate]. Qed.

(** The fuel never runs out on a non-empty level: the last level built is
    a single node. *)
Lemma buildLevels_top (fuel : nat) :
  forall nodes,
    nodes <> [] ->
    (length nodes <= S fuel)%nat ->
    exists r, last (buildLevels fuel nodes) [] = [r].
Proof.
  induction fuel as [|fuel IH]; intros nodes Hne Hlen.
  - destruct nodes as [|a [|b l]]; cbn in Hlen; [congruence | now exists a | lia].
  - destruct nodes as [|a [|b l]]; [congruence | now exists a |].
    cbn [MerkleEngine.buildLevels].
    remember (a :: b :: l) as nodes eqn:Hn.
    destruct (IH (nextLevel nodes)) as [r Hr].
    + apply nextLevel_nonempty. subst nodes. discriminate.
    + pose proof (nextLevel_length nodes). subst nodes. cbn [length] in *. lia.
    + exists r. rewrite <- Hr.
      pose proof (buildLevels_nonempty fuel (nextLevel nodes)) as Hup.
      destruct (buildLevels fuel (nextLevel nodes)); [congruence | reflexivity].
Qed.

Lemma positions_length (leaf : bytes32) (leaves : list bytes32) :
  forall from, length (MerkleEngine.positions leaf leaves from) = count_occ Z.eq_dec leaves leaf.
Proof.
  induction leaves as [|x rest IH]; intros from; cbn; [reflexivity|].
  destruct (Z.eqb_spec x leaf), (Z.eq_dec x leaf); try congruence; cbn; now rewrite IH.
Qed.

Lemma positions_sound (leaf : bytes32) (leaves : list bytes32) :
  forall from i, In i (MerkleEngine.positions leaf leaves from) ->
    (from <= i)%nat /\ nth_error leaves (i - from) = Some leaf.
Proof.
  induction leaves as [|x rest IH]; intros from i Hin; cbn in Hin; [contradiction|].
  destruct (Z.eqb_spec x leaf).
  - destruct Hin as [<-|Hin].
    + rewrite Nat.sub_diag. subst. split; [lia|reflexivity].
    + apply IH in Hin. destruct Hin as [Hle Hnth]. split; [lia|].
      replace (i - from)%nat with (S (i - S from)) by lia. exact Hnth.
  - apply IH in Hin. destruct Hin as [Hle Hnth]. split; [lia|].
    replace (i - from)%nat with (S (i - S from)) by lia. exact Hnth.
Qed.

Lemma proofFor_unique (leaves : list bytes32) (leaf : bytes32) :
  count_occ Z.eq_dec leaves leaf = 1%nat ->
  exists i, nth_error leaves i = Some leaf /\
            proofFor (buildTree leaves) leaf = inr (proofAt (buildTree leaves) i).
Proof.
  intros Hcount.
  unfold MerkleEngine.proofFor, MerkleEngine.buildTree.
  rewrite buildLevels_hd.
  pose proof (positions_length leaf leaves 0) as Hlen.
  rewrite Hcount in Hlen.
  destruct (MerkleEngine.positions leaf leaves 0) as [|i [|j more]] eqn:Hpos;
    try discriminate.
  exists i. split; [|reflexivity].
  destruct (positions_sound leaf leaves 0 i) as [_ Hnth].
  - rewrite Hpos. now left.
  - now rewrite Nat.sub_0_r in Hnth.
Qed.

Lemma proofAt_verifies (leaves : list bytes32) (i : nat) (leaf : bytes32) :
  nth_error leaves i = Some leaf ->
  verifyProof leaf (MerkleEngine.rootOf (buildTree leaves)) (proofAt (buildTree leaves) i) = true.
Proof.
  intros Hi. unfold MerkleEngine.verifyProof, MerkleEngine.buildTree.
  rewrite (proofAt_climbs (length leaves) leaves i leaf); [apply Z.eqb_refl | lia | exact Hi].
Qed.

(** C2.  For every non-empty sequence of leaves, the tree being built with
    the sorted-pair rule (under either rule for odd levels): the tree has
    the sequence as its leaves and a single node, its root, as its last
    level; the inclusion proof generated for any leaf of the sequence, at
    whichever position it stands, verifies against the root of the tree; and for a leaf value
    that stands at one position only, the proof that the lookup by value
    [proofFor] returns is that proof, and verifies. *)
Theorem merkle_proof_roundtrip (leaves : list bytes32) :
  leaves <> [] ->
  (MerkleEngine.leavesOf (buildTree leaves) = leaves
   /\ last (buildTree leaves) [] = [MerkleEngine.rootOf (buildTree leaves)])
  /\
  (forall i leaf, nth_error leaves i = Some leaf ->
     verifyProof leaf (MerkleEngine.rootOf (buildTree leaves))
                 (proofAt (buildTree leaves) i) = true)
  /\
  (forall leaf, In leaf leaves ->
     exists i, nth_error leaves i = Some leaf /\
       verifyProof leaf (MerkleEngine.rootOf (buildTree leaves))
                   (proofAt (buildTree leaves) i) = true)
  /\
  (forall leaf, count_occ Z.eq_dec leaves leaf = 1%nat ->
     exists proof, proofFor (buildTree leaves) leaf = inr proof /\
       verifyProof leaf (MerkleEngine.rootOf (buildTree leaves)) proof = true).
Proof.
  intros Hne. split; [|split; [|split]].
  - split; [apply buildLevels_hd|].
    destruct (buildLevels_top (length leaves) leaves Hne) as [r Hr]; [lia|].
    unfold MerkleEngine.rootOf, MerkleEngine.buildTree. now rewrite Hr.
  - intros i leaf Hi. now apply proofAt_verifies.
  - intros leaf Hin. apply In_nth_error in Hin. destruct Hin as [i Hi].
    exists i. split; [exact Hi | now apply proofAt_verifies].
  - intros leaf Hcount.
    destruct (proofFor_unique leaves leaf Hcount) as [i [Hi Hp]].
    exists (proofAt (buildTree leaves) i). split; [exact Hp | now apply proofAt_verifies].
Qed.



End MerkleEngineFacts.

(* ================================================================= *)
(** ** Properties of the batch ledger *)

Lemma upd_same {V : Type} (m : Z -> V) (k : Z) (v : V) : upd m k v k = v.
Proof. unfold upd. now rewrite Z.eqb_refl. Qed.

Lemma upd_other {V : Type} (m : Z -> V) (k k' : Z) (v : V) :
  k' <> k -> upd m k v k' = m k'.
Proof. unfold upd. intros H. apply Z.eqb_neq in H. now rewrite H. Qed.

Section VCRegistryFacts.

Import VCRegistry.

Variable keccak256 : list Z -> bytes32.

Local Abbreviation ISSUER_ROLE := (VCRegistry.ISSUER_ROLE keccak256).
Local Abbreviation dispatch := (VCRegistry.dispatch keccak256).
Local Abbreviation exec := (VCRegistry.exec keccak256).
Local Abbreviation run := (VCRegistry.run keccak256).
Local Abbreviation issueBatchCredentials := (VCRegistry.issueBatchCredentials keccak256).
Local Abbreviation verifyCredential := (VCRegistry.verifyCredential keccak256).
Local Abbreviation verifyProof := (MerkleEngine.verifyProof keccak256).

(** What no successful call touches: the issuer of a published root, and
    the revocation mark of a revoked leaf. *)
Lemma dispatch_frame (s s' : state) (sender : address) (c : call) :
  dispatch s sender c = Ok s' ->
  (forall root, merkleRootToIssuer s root <> address0 ->
                merkleRootToIssuer s' root = merkleRootToIssuer s root)
  /\ (forall leaf, isBatchCredentialRevoked s leaf = true ->
                   isBatchCredentialRevoked s' leaf = true).
Proof.
  intros H. destruct c; unfold_vc; split_guards H;
    injection H as <-; cbn; split; intros x Hx; try reflexivity; try exact Hx.
  - apply upd_other. intros ->. apply Z.eqb_eq in Heqb0. contradiction.
  - unfold upd. destruct (x =? _leaf); [reflexivity | exact Hx].
Qed.

Lemma exec_frame (s : state) (tx : address * call) :
  (forall root, merkleRootToIssuer s root <> address0 ->
                merkleRootToIssuer (exec s tx) root = merkleRootToIssuer s root)
  /\ (forall leaf, isBatchCredentialRevoked s leaf = true ->
                   isBatchCredentialRevoked (exec s tx) leaf = true).
Proof.
  unfold VCRegistry.exec.
  destruct (dispatch s (fst tx) (snd tx)) as [s'|e] eqn:Hd.
  - exact (dispatch_frame _ _ _ _ Hd).
  - split; intros; [reflexivity | assumption].
Qed.

Lemma run_issuer_stable (txs : list (address * call)) :
  forall s root, merkleRootToIssuer s root <> address0 ->
    merkleRootToIssuer (run s txs) root = merkleRootToIssuer s root.
Proof.
  induction txs as [|tx txs IH]; intros s root Hroot; [reflexivity|].
  cbn [VCRegistry.run fold_left].
  destruct (exec_frame s tx) as [Hissuer _].
  specialize (Hissuer root Hroot).
  change (fold_left exec txs (exec s tx)) with (run (exec s tx) txs).
  rewrite IH; [exact Hissuer | now rewrite Hissuer].
Qed.

Lemma run_revoked_stable (txs : list (address * call)) :
  forall s leaf, isBatchCredentialRevoked s leaf = true ->
    isBatchCredentialRevoked (run s txs) leaf = true.
Proof.
  induction txs as [|tx txs IH]; intros s leaf Hleaf; [exact Hleaf|].
  cbn [VCRegistry.run fold_left].
  change (fold_left exec txs (exec s tx)) with (run (exec s tx) txs).
  apply IH. now apply exec_frame.
Qed.

Lemma verify_revoked (s : state) (leaf root : bytes32) (proof : list bytes32) :
  isBatchCredentialRevoked s leaf = true ->
  verifyCredential s leaf root proof = Ok (false, address0).
Proof. intros H. unfold VCRegistry.verifyCredential. now rewrite H. Qed.

(** C1.  [verifyCredential] reads the state only and never reverts.  It
    checks in this order: a revoked leaf gives (false, none); otherwise a
    root without a recorded issuer gives (false, none); otherwise the
    Merkle proof decides, (false, none) when it does not verify and
    (true, issuer of the root) when it does. *)
Theorem verifyCredential_three_stage (s : state) (leaf root : bytes32) (proof : list bytes32) :
  (isBatchCredentialRevoked s leaf = true ->
     verifyCredential s leaf root proof = Ok (false, address0))
  /\ (isBatchCredentialRevoked s leaf = false ->
      merkleRootToIssuer s root = address0 ->
      verifyCredential s leaf root proof = Ok (false, address0))
  /\ (isBatchCredentialRevoked s leaf = false ->
      merkleRootToIssuer s root <> address0 ->
      verifyProof leaf root proof = false ->
      verifyCredential s leaf root proof = Ok (false, address0))
  /\ (isBatchCredentialRevoked s leaf = false ->
      merkleRootToIssuer s root <> address0 ->
      verifyProof leaf root proof = true ->
      verifyCredential s leaf root proof = Ok (true, merkleRootToIssuer s root))
  /\ (exists verdict, verifyCredential s leaf root proof = Ok verdict).
Proof.
  unfold VCRegistry.verifyCredential.
  repeat split.
  - intros ->. reflexivity.
  - intros -> ->. reflexivity.
  - intros -> Hroot ->. apply Z.eqb_neq in Hroot. now rewrite Hroot.
  - intros -> Hroot ->. apply Z.eqb_neq in Hroot. now rewrite Hroot.
  - destruct (isBatchCredentialRevoked s leaf); [eauto|].
    destruct (merkleRootToIssuer s root =? address0); [eauto|].
    destruct (verifyProof leaf root proof); eauto.
Qed.

(** C3.  Revocation is a mark on the leaf hash alone.  From a state in
    which a leaf is marked revoked, whatever transactions follow, the mark
    stays, and [verifyCredential] answers (false, none) for that leaf under
    every root and with every proof. *)
Theorem revocation_is_permanent (s : state) (leaf : bytes32) :
  isBatchCredentialRevoked s leaf = true ->
  forall (txs : list (address * call)) (root : bytes32) (proof : list bytes32),
    isBatchCredentialRevoked (run s txs) leaf = true
    /\ verifyCredential (run s txs) leaf root proof = Ok (false, address0).
Proof.
  intros Hrev txs root proof.
  assert (isBatchCredentialRevoked (run s txs) leaf = true) as H
      by now apply run_revoked_stable.
  split; [exact H | now apply verify_revoked].
Qed.

(** C4.  Publishing a root that already has an issuer fails: with
    [DuplicateRoot] for a caller that holds the issuer role (a caller
    without it is turned away by the role guard before the root is looked
    at), and for every caller without any change of state.  The issuer
    recorded for a published root stays the same through every later
    sequence of transactions. *)
Theorem issueBatch_duplicate_root (s : state) (sender : address) (root : bytes32) :
  merkleRootToIssuer s root <> address0 ->
  (hasRole s ISSUER_ROLE sender = true ->
     issueBatchCredentials s sender root = Err DuplicateRoot)
  /\ (exists e, issueBatchCredentials s sender root = Err e)
  /\ exec s (sender, IssueBatchCredentials root) = s
  /\ (forall txs, merkleRootToIssuer (run s txs) root = merkleRootToIssuer s root).
Proof.
  intros Hroot.
  assert ((merkleRootToIssuer s root =? address0) = false) as Hb by now apply Z.eqb_neq.
  assert (exists e, issueBatchCredentials s sender root = Err e) as Hfail.
  { unfold_vc. destruct (hasRole s ISSUER_ROLE sender); [|eauto]. rewrite Hb. eauto. }
  repeat split.
  - intros Hrole. unfold_vc. now rewrite Hrole, Hb.
  - exact Hfail.
  - destruct Hfail as [e He]. unfold VCRegistry.exec. cbn [fst snd VCRegistry.dispatch].
    now rewrite He.
  - intros txs. now apply run_issuer_stable.
Qed.

(** C5.  [revokeBatchCredential] checks in order: an unknown root fails
    with [UnknownRoot]; a caller other than the root's issuer fails with
    [NotAuthorized]; an already revoked leaf fails with [AlreadyRevoked].
    Otherwise it succeeds: it marks the leaf (and only that leaf) revoked,
    leaves roles and roots alone, and appends [BatchCredentialRevoked
    (leaf, root, caller)] to the log.  A failed call leaves the state
    unchanged. *)
Theorem revokeBatchCredential_spec (s : state) (sender : address) (leaf root : bytes32) :
  (merkleRootToIssuer s root = address0 ->
     revokeBatchCredential s sender leaf root = Err UnknownRoot)
  /\ (merkleRootToIssuer s root <> address0 ->
      sender <> merkleRootToIssuer s root ->
      revokeBatchCredential s sender leaf root = Err NotAuthorized)
  /\ (merkleRootToIssuer s root <> address0 ->
      sender = merkleRootToIssuer s root ->
      isBatchCredentialRevoked s leaf = true ->
      revokeBatchCredential s sender leaf root = Err AlreadyRevoked)
  /\ (merkleRootToIssuer s root <> address0 ->
      sender = merkleRootToIssuer s root ->
      isBatchCredentialRevoked s leaf = false ->
      exists s', revokeBatchCredential s sender leaf root = Ok s'
        /\ isBatchCredentialRevoked s' leaf = true
        /\ (forall other, other <> leaf ->
              isBatchCredentialRevoked s' other = isBatchCredentialRevoked s other)
        /\ merkleRootToIssuer s' = merkleRootToIssuer s
        /\ _roles s' = _roles s
        /\ logs s' = logs s ++ [BatchCredentialRevoked leaf root sender])
  /\ (forall e, revokeBatchCredential s sender leaf root = Err e ->
        exec s (sender, RevokeBatchCredential leaf root) = s).
Proof.
  repeat split.
  - intros H. unfold_vc. now rewrite H.
  - intros Hroot Hsender. unfold_vc.
    apply Z.eqb_neq in Hroot, Hsender. now rewrite Hroot, Hsender.
  - intros Hroot Hsender Hrev. unfold_vc.
    apply Z.eqb_neq in Hroot. apply Z.eqb_eq in Hsender.
    now rewrite Hroot, Hsender, Hrev.
  - intros Hroot Hsender Hrev. unfold_vc.
    apply Z.eqb_neq in Hroot. apply Z.eqb_eq in Hsender.
    rewrite Hroot, Hsender, Hrev. cbn.
    eexists. split; [reflexivity|]. cbn.
    repeat split; [apply upd_same | intros other Hother; now apply upd_other].
  - intros e He. unfold VCRegistry.exec. cbn [fst snd VCRegistry.dispatch].
    now rewrite He.
Qed.

(** C10.  [revokeBatchCredential] never looks at whether the leaf belongs
    to the batch under the root.  Whenever a root has a recorded issuer and
    a leaf value is not yet revoked, the issuer's call on that leaf and
    root succeeds, whatever the leaf is; from then on, through every later
    sequence of transactions, [verifyCredential] answers (false, none) for
    that leaf under every root and with every proof. *)
Theorem revoke_ignores_membership (s : state) (root : bytes32) (issuer : address) (leaf : bytes32) :
  merkleRootToIssuer s root = issuer ->
  issuer <> address0 ->
  isBatchCredentialRevoked s leaf = false ->
  exists s', revokeBatchCredential s issuer leaf root = Ok s'
    /\ forall (txs : list (address * call)) (anyRoot : bytes32) (proof : list bytes32),
         verifyCredential (run s' txs) leaf anyRoot proof = Ok (false, address0).
Proof.
  intros Hissuer Hnz Hfresh. unfold_vc.
  rewrite Hissuer, Hfresh.
  apply Z.eqb_neq in Hnz. rewrite Hnz, Z.eqb_refl. cbn.
  eexists. split; [reflexivity|].
  intros txs anyRoot proof.
  apply verify_revoked, run_revoked_stable. cbn. apply upd_same.
Qed.

End VCRegistryFacts.

(* ================================================================= *)
(** ** Properties of the identity ledger *)

Section DIDRegistryFacts.

Import DIDRegistry.

Variable keccak256 : list Z -> bytes32.

Local Abbreviation deriveDID := (DIDRegistry.deriveDID keccak256).
Local Abbreviation createDID := (DIDRegistry.createDID keccak256).
Local Abbreviation dispatch := (DIDRegistry.dispatch keccak256).
Local Abbreviation exec := (DIDRegistry.exec keccak256).
Local Abbreviation run := (DIDRegistry.run keccak256).

Lemma isActive_Revoked (st : Status) : isActive st = true -> st = Revoked -> False.
Proof. intros H ->. discriminate H. Qed.

(** What a successful call can do to an existing record, and to the
    reverse index. *)
Lemma dispatch_frame_did (s s' : state) (sender : address) (c : call) :
  dispatch s sender c = Ok s' ->
  (forall did, controller (dids s did) <> address0 ->
     controller (dids s' did) = controller (dids s did)
     /\ (sender <> controller (dids s did) -> dids s' did = dids s did)
     /\ (status (dids s did) = Revoked -> dids s' did = dids s did))
  /\ (forall owner d, In d (ownerToDIDs s owner) -> In d (ownerToDIDs s' owner)).
Proof.
  intros H. destruct c as [c | d c | d]; unfold_did; split_guards H;
    injection H as <-; cbn; (split; [intros did Hdid | intros owner x Hx; try exact Hx]).
  - assert (did <> deriveDID sender (nonces s sender)) as Hne.
    { intros ->. apply Z.eqb_eq in Heqb. contradiction. }
    rewrite upd_other by exact Hne. repeat split.
  - unfold upd. destruct (owner =? sender) eqn:Ho; [|exact Hx].
    apply Z.eqb_eq in Ho. subst owner. apply in_or_app. now left.
  - unfold upd. destruct (did =? d) eqn:Hd; [|repeat split].
    apply Z.eqb_eq in Hd. subst d. apply Z.eqb_eq in Heqb0. cbn.
    split; [reflexivity|]. split.
    + intros Hs. congruence.
    + intros Hst. exfalso. eapply isActive_Revoked; eassumption.
  - unfold upd. destruct (did =? d) eqn:Hd; [|repeat split].
    apply Z.eqb_eq in Hd. subst d. apply Z.eqb_eq in Heqb0. cbn.
    split; [reflexivity|]. split.
    + intros Hs. congruence.
    + intros Hst. exfalso. eapply isActive_Revoked; eassumption.
Qed.

Lemma exec_frame_did (s : state) (tx : address * call) :
  (forall did, controller (dids s did) <> address0 ->
     controller (dids (exec s tx) did) = controller (dids s did)
     /\ (fst tx <> controller (dids s did) -> dids (exec s tx) did = dids s did)
     /\ (status (dids s did) = Revoked -> dids (exec s tx) did = dids s did))
  /\ (forall owner d, In d (ownerToDIDs s owner) -> In d (ownerToDIDs (exec s tx) owner)).
Proof.
  unfold DIDRegistry.exec.
  destruct (dispatch s (fst tx) (snd tx)) as [s'|e] eqn:Hd.
  - exact (dispatch_frame_did _ _ _ _ Hd).
  - split; [intros did _; repeat split | intros owner d Hin; exact Hin].
Qed.

Lemma run_controller_stable (txs : list (address * call)) :
  forall s did, controller (dids s did) <> address0 ->
    controller (dids (run s txs) did) = controller (dids s did).
Proof.
  induction txs as [|tx txs IH]; intros s did Hdid; [reflexivity|].
  cbn [DIDRegistry.run fold_left].
  change (fold_left exec txs (exec s tx)) with (run (exec s tx) txs).
  destruct (exec_frame_did s tx) as [Hrec _].
  destruct (Hrec did Hdid) as [Hc _].
  rewrite IH; [exact Hc | now rewrite Hc].
Qed.


Lemma run_others_frozen (txs : list (address * call)) :
  forall s did, controller (dids s did) <> address0 ->
    Forall (fun tx => fst tx <> controller (dids s did)) txs ->
    dids (run s txs) did = dids s did.
Proof.
  induction txs as [|tx txs IH]; intros s did Hdid Hall; [reflexivity|].
  cbn [DIDRegistry.run fold_left].
  change (fold_left exec txs (exec s tx)) with (run (exec s tx) txs).
  inversion Hall as [|? ? Htx Hrest]; subst.
  destruct (exec_frame_did s tx) as [Hrec _].
  destruct (Hrec did Hdid) as (_ & Hkept & _).
  specialize (Hkept Htx).
  rewrite IH; rewrite Hkept; auto.
Qed.

Lemma run_index_grows (txs : list (address * call)) :
  forall s owner d, In d (ownerToDIDs s owner) -> In d (ownerToDIDs (run s txs) owner).
Proof.
  induction txs as [|tx txs IH]; intros s owner d Hin; [exact Hin|].
  cbn [DIDRegistry.run fold_left].
  change (fold_left exec txs (exec s tx)) with (run (exec s tx) txs).
  apply IH. now apply exec_frame_did.
Qed.

(** The effect of a successful [createDID]. *)
Lemma createDID_ok (s s' : state) (sender : address) (_cid : string) :
  createDID s sender _cid = Ok s' ->
  controller (dids s (deriveDID sender (nonces s sender))) = address0
  /\ nonces s' sender = nonces s sender + 1
  /\ dids s' (deriveDID sender (nonces s sender))
     = {| controller := sender; cid := _cid; status := Active |}
  /\ ownerToDIDs s' sender
     = ownerToDIDs s sender ++ [deriveDID sender (nonces s sender)]
  /\ logs s' = logs s ++ [DIDRegistered (deriveDID sender (nonces s sender)) sender _cid].
Proof.
  intros H. unfold_did. split_guards H. injection H as <-. cbn.
  apply Z.eqb_eq in Heqb. rewrite !upd_same. repeat split. exact Heqb.
Qed.

(** C8.  [createDID] derives the identifier from the caller and the
    caller's current nonce.  It fails with [CollisionDetected] when a
    record already exists under the derived identifier.  Every successful
    call stores the record under that identifier with the caller as
    controller, increments the caller's nonce by one, appends the
    identifier to the caller's reverse index and logs [DIDRegistered]; it
    does succeed when no record exists under the derived identifier and
    the nonce is below its maximum.  Hence two successful creations by one
    controller (a caller is never the zero address), whatever transactions
    lie between them, produce two distinct identifiers, and
    [getDIDsByOwner] returns both, then and ever after. *)
Theorem createDID_spec (s : state) (sender : address) (_cid : string) :
  (controller (dids s (deriveDID sender (nonces s sender))) <> address0 ->
     createDID s sender _cid = Err CollisionDetected)
  /\ (controller (dids s (deriveDID sender (nonces s sender))) = address0 ->
      nonces s sender < MAX_UINT256 ->
      exists s', createDID s sender _cid = Ok s')
  /\ (forall s', createDID s sender _cid = Ok s' ->
        nonces s' sender = nonces s sender + 1
        /\ dids s' (deriveDID sender (nonces s sender))
           = {| controller := sender; cid := _cid; status := Active |}
        /\ getDIDsByOwner s' sender
           = getDIDsByOwner s sender ++ [deriveDID sender (nonces s sender)]
        /\ logs s' = logs s ++ [DIDRegistered (deriveDID sender (nonces s sender)) sender _cid])
  /\ (sender <> address0 ->
      forall s1 txs cid2 s2,
        createDID s sender _cid = Ok s1 ->
        createDID (run s1 txs) sender cid2 = Ok s2 ->
        deriveDID sender (nonces s sender)
          <> deriveDID sender (nonces (run s1 txs) sender)
        /\ forall later,
             In (deriveDID sender (nonces s sender))
                (getDIDsByOwner (run s2 later) sender)
             /\ In (deriveDID sender (nonces (run s1 txs) sender))
                   (getDIDsByOwner (run s2 later) sender)).
Proof.
  split; [|split; [|split]].
  - intros Hex. unfold_did. apply Z.eqb_neq in Hex. now rewrite Hex.
  - intros Hfree Hmax. unfold_did. rewrite Hfree.
    assert ((MAX_UINT256 <=? nonces s sender) = false) as Hroom
        by (apply Z.leb_gt; exact Hmax).
    rewrite Hroom. cbn. eauto.
  - intros s' Hok. apply createDID_ok in Hok.
    destruct Hok as (_ & Hn & Hd & Ho & Hl). now repeat split.
  - intros Hsender s1 txs cid2 s2 Hfirst Hsecond.
    apply createDID_ok in Hfirst. destruct Hfirst as (_ & _ & Hd1 & Ho1 & _).
    apply createDID_ok in Hsecond. destruct Hsecond as (Hfree2 & _ & _ & Ho2 & _).
    assert (controller (dids s1 (deriveDID sender (nonces s sender))) <> address0) as Hlive.
    { now rewrite Hd1. }
    split.
    + intros Heq. rewrite <- Heq in Hfree2.
      rewrite run_controller_stable in Hfree2 by exact Hlive. contradiction.
    + intros later. unfold DIDRegistry.getDIDsByOwner.
      split; apply run_index_grows; rewrite Ho2; apply in_or_app.
      * left. apply run_index_grows. rewrite Ho1. apply in_or_app. right. now left.
      * right. now left.
Qed.


End DIDRegistryFacts.

(* ================================================================= *)
(** ** The theorems at concrete inputs *)

Section Instances.

Import Sample.
Local Open Scope string_scope.

(** The scenario of the specification: three leaves, the root published by
    the deployer. *)
Example scenario_valid_leaf :
  VCRegistry.verifyCredential toyHash published 10 rootA (proofA 0) = Ok (true, deployer).
Proof. vm_compute. reflexivity. Qed.

Example scenario_after_revocation :
  VCRegistry.verifyCredential toyHash revokedA 10 rootA (proofA 0) = Ok (false, address0).
Proof. vm_compute. reflexivity. Qed.

Example scenario_leaf_never_in_tree :
  VCRegistry.verifyCredential toyHash published 99 rootA [] = Ok (false, address0).
Proof. vm_compute. reflexivity. Qed.

Example scenario_other_issuer_cannot_revoke :
  VCRegistry.revokeBatchCredential published issuer2 10 rootA = Err VCRegistry.NotAuthorized.
Proof. vm_compute. reflexivity. Qed.

(** The identity ledger, along the lines of the repository's tests. *)
Example scenario_resolve_after_create :
  DIDRegistry.resolveDID registered firstDID = Ok (deployer, "QmA", DIDRegistry.Active).
Proof. vm_compute. reflexivity. Qed.

Example scenario_resolve_after_update_and_revoke :
  DIDRegistry.resolveDID
    (DIDRegistry.run toyHash registered
       [ (deployer, DIDRegistry.UpdateDID firstDID "QmB");
         (outsider, DIDRegistry.UpdateDID firstDID "QmX");
         (deployer, DIDRegistry.RevokeDID firstDID);
         (deployer, DIDRegistry.UpdateDID firstDID "QmC") ])
    firstDID
  = Ok (deployer, "QmB", DIDRegistry.Revoked).
Proof. vm_compute. reflexivity. Qed.

Example scenario_revoke_twice :
  DIDRegistry.revokeDID
    (DIDRegistry.exec toyHash registered (deployer, DIDRegistry.RevokeDID firstDID))
    deployer firstDID
  = Err DIDRegistry.AlreadyRevoked_revoke.
Proof. vm_compute. reflexivity. Qed.

Example scenario_two_identifiers :
  DIDRegistry.getDIDsByOwner
    (DIDRegistry.exec toyHash registered (deployer, DIDRegistry.CreateDID "QmB")) deployer
  = [firstDID; DIDRegistry.deriveDID toyHash deployer 1].
Proof. vm_compute. reflexivity. Qed.

Lemma merkle_proof_roundtrip_witness :
  batchA <> []
  /\ MerkleEngine.verifyProof toyHash 30 rootA (proofA 2) = true.
Proof.
  assert (batchA <> []) as Hne by (unfold batchA; discriminate).
  split; [exact Hne|].
  exact (proj1 (proj2 (merkle_proof_roundtrip toyHash MerkleEngine.CarryUnpaired batchA Hne))
               2%nat 30 eq_refl).
Defined.


Lemma revocation_is_permanent_witness :
  MerkleEngine.verifyProof toyHash 10 rootA (proofA 0) = true
  /\ VCRegistry.verifyCredential toyHash
       (VCRegistry.run toyHash revokedA [(issuer2, VCRegistry.IssueBatchCredentials 77)])
       10 rootA (proofA 0)
     = Ok (false, address0).
Proof.
  split; [vm_compute; reflexivity|].
  apply (revocation_is_permanent toyHash revokedA 10).
  vm_compute. reflexivity.
Defined.

Lemma issueBatch_duplicate_root_witness :
  VCRegistry.merkleRootToIssuer published rootA = deployer
  /\ VCRegistry.issueBatchCredentials toyHash published issuer2 rootA
     = Err VCRegistry.DuplicateRoot.
Proof.
  split; [vm_compute; reflexivity|].
  apply (issueBatch_duplicate_root toyHash published issuer2 rootA).
  - vm_compute. discriminate.
  - vm_compute. reflexivity.
Defined.

Lemma revoke_ignores_membership_witness :
  VCRegistry.verifyCredential toyHash published 40 rootB (proofB 0) = Ok (true, issuer2)
  /\ exists s',
       VCRegistry.revokeBatchCredential published deployer 40 rootA = Ok s'
       /\ forall txs anyRoot proof,
            VCRegistry.verifyCredential toyHash (VCRegistry.run toyHash s' txs) 40 anyRoot proof
            = Ok (false, address0).
Proof.
  split; [vm_compute; reflexivity|].
  apply (revoke_ignores_membership toyHash published rootA deployer 40).
  - vm_compute. reflexivity.
  - vm_compute. discriminate.
  - vm_compute. reflexivity.
Defined.

Lemma createDID_spec_witness :
  (DIDRegistry.createDID constHash collided issuer2 "QmB" = Err DIDRegistry.CollisionDetected)
  /\ (firstDID <> DIDRegistry.deriveDID toyHash deployer 1
      /\ forall later,
           In firstDID
              (DIDRegistry.getDIDsByOwner
                 (DIDRegistry.run toyHash
                    (DIDRegistry.run toyHash registered
                       [(issuer2, DIDRegistry.CreateDID "QmC"); (deployer, DIDRegistry.CreateDID "QmB")])
                    later) deployer)
           /\ In (DIDRegistry.deriveDID toyHash deployer 1)
                 (DIDRegistry.getDIDsByOwner
                    (DIDRegistry.run toyHash
                       (DIDRegistry.run toyHash registered
                          [(issuer2, DIDRegistry.CreateDID "QmC"); (deployer, DIDRegistry.CreateDID "QmB")])
                       later) deployer)).
Proof.
  split.
  - apply (proj1 (createDID_spec constHash collided issuer2 "QmB")).
    vm_compute. discriminate.
  - assert (deployer <> address0) as Hsender by (vm_compute; discriminate).
    exact (proj2 (proj2 (proj2 (createDID_spec toyHash DIDRegistry.empty deployer "QmA")))
             Hsender registered [(issuer2, DIDRegistry.CreateDID "QmC")] "QmB"
             (DIDRegistry.run toyHash registered
                [(issuer2, DIDRegistry.CreateDID "QmC"); (deployer, DIDRegistry.CreateDID "QmB")])
             eq_refl eq_refl).
Defined.


End Instances.

(* ================================================================= *)
(** ** Properties of the credential registry [VerifiableCredential] *)

(** An invariant of single steps, under a condition on the transactions,
    is an invariant of runs. *)
Lemma fold_left_invariant {S T : Type} (step : S -> T -> S)
    (Q : T -> Prop) (P : S -> Prop) :
  (forall s t, Q t -> P s -> P (step s t)) ->
  forall ts s, Forall Q ts -> P s -> P (fold_left step ts s).
Proof.
  intros Hstep ts. induction ts as [|t ts IH]; intros s Hall Hs; [exact Hs|].
  inversion Hall as [|? ? Ht Hts]; subst. cbn. apply IH; [exact Hts|].
  now apply Hstep.
Qed.

Lemma Forall_trivial {T : Type} (ts : list T) : Forall (fun _ => True) ts.
Proof. induction ts; constructor; auto. Qed.

Section VerifiableCredentialFacts.

Import VerifiableCredential.

(** What a successful call leaves alone. *)
Lemma dispatch_frame_cred (s s' : state) (sender : address) (c : call) :
  dispatch s sender c = Ok s' ->
  owner s' = owner s
  /\ (sender <> owner s -> forall a, trustedIssuers s' a = trustedIssuers s a)
  /\ (forall id, issuer (_credentials s id) <> address0 ->
        issuer (_credentials s' id) = issuer (_credentials s id)
        /\ subjectDID (_credentials s' id) = subjectDID (_credentials s id)
        /\ ipfsHash (_credentials s' id) = ipfsHash (_credentials s id)
        /\ (revoked (_credentials s id) = true -> _credentials s' id = _credentials s id)
        /\ ((sender, c) <> (issuer (_credentials s id), RevokeCredential id) ->
            _credentials s' id = _credentials s id)).
Proof.
  intros H. destruct c as [a | a | id0 subj hash | id0]; unfold_cred; split_guards H;
    injection H as <-; cbn; (split; [reflexivity|]); (split; [intros Hother | intros id Hid]).
  - apply Z.eqb_eq in Heqb. contradiction.
  - repeat split.
  - apply Z.eqb_eq in Heqb. contradiction.
  - repeat split.
  - reflexivity.
  - assert (id <> id0) as Hne.
    { intros ->. apply Z.eqb_eq in Heqb0. contradiction. }
    rewrite upd_other by exact Hne. repeat split.
  - reflexivity.
  - unfold upd. destruct (id =? id0) eqn:Hsame; [|repeat split].
    apply Z.eqb_eq in Hsame. subst id0. apply Z.eqb_eq in Heqb. cbn.
    repeat split.
    + intros Hrev. rewrite Hrev in Heqb0. discriminate.
    + intros Hne. exfalso. apply Hne. now rewrite Heqb.
Qed.

Lemma exec_frame_cred (s : state) (tx : address * call) :
  owner (exec s tx) = owner s
  /\ (fst tx <> owner s -> forall a, trustedIssuers (exec s tx) a = trustedIssuers s a)
  /\ (forall id, issuer (_credentials s id) <> address0 ->
        issuer (_credentials (exec s tx) id) = issuer (_credentials s id)
        /\ subjectDID (_credentials (exec s tx) id) = subjectDID (_credentials s id)
        /\ ipfsHash (_credentials (exec s tx) id) = ipfsHash (_credentials s id)
        /\ (revoked (_credentials s id) = true ->
            _credentials (exec s tx) id = _credentials s id)
        /\ (tx <> (issuer (_credentials s id), RevokeCredential id) ->
            _credentials (exec s tx) id = _credentials s id)).
Proof.
  unfold exec. destruct tx as [sender c]. cbn [fst snd].
  destruct (dispatch s sender c) as [s'|e] eqn:Hd.
  - exact (dispatch_frame_cred _ _ _ _ Hd).
  - repeat split.
Qed.

Lemma run_owner_stable (s : state) (txs : list (address * call)) :
  owner (run s txs) = owner s.
Proof.
  apply (fold_left_invariant exec (fun _ => True) (fun s' => owner s' = owner s));
    [|apply Forall_trivial|reflexivity].
  intros s0 tx _ Hs0. rewrite <- Hs0. apply exec_frame_cred.
Qed.

(** An existing credential keeps issuer, subject and content address. *)
Lemma run_cred_fields (s : state) (id : bytes32) (txs : list (address * call)) :
  issuer (_credentials s id) <> address0 ->
  issuer (_credentials (run s txs) id) = issuer (_credentials s id)
  /\ subjectDID (_credentials (run s txs) id) = subjectDID (_credentials s id)
  /\ ipfsHash (_credentials (run s txs) id) = ipfsHash (_credentials s id).
Proof.
  intros Hid.
  apply (fold_left_invariant exec (fun _ => True)
           (fun s' => issuer (_credentials s' id) = issuer (_credentials s id)
                      /\ subjectDID (_credentials s' id) = subjectDID (_credentials s id)
                      /\ ipfsHash (_credentials s' id) = ipfsHash (_credentials s id)));
    [|apply Forall_trivial|repeat split].
  intros s0 tx _ (Hi & Hs & Hh).
  destruct (exec_frame_cred s0 tx) as (_ & _ & Hrec).
  destruct (Hrec id) as (Hi' & Hs' & Hh' & _); [now rewrite Hi|].
  repeat split; congruence.
Qed.

Lemma run_cred_revoked_frozen (s : state) (id : bytes32) (txs : list (address * call)) :
  issuer (_credentials s id) <> address0 ->
  revoked (_credentials s id) = true ->
  _credentials (run s txs) id = _credentials s id.
Proof.
  intros Hid Hrev.
  apply (fold_left_invariant exec (fun _ => True)
           (fun s' => _credentials s' id = _credentials s id));
    [|apply Forall_trivial|reflexivity].
  intros s0 tx _ Hs0.
  destruct (exec_frame_cred s0 tx) as (_ & _ & Hrec).
  destruct (Hrec id) as (_ & _ & _ & Hfrozen & _); [now rewrite Hs0|].
  rewrite Hfrozen; [exact Hs0 | now rewrite Hs0].
Qed.

Lemma run_cred_untouched (s : state) (id : bytes32) (txs : list (address * call)) :
  issuer (_credentials s id) <> address0 ->
  Forall (fun tx => tx <> (issuer (_credentials s id), RevokeCredential id)) txs ->
  _credentials (run s txs) id = _credentials s id.
Proof.
  intros Hid Hall.
  apply (fold_left_invariant exec
           (fun tx => tx <> (issuer (_credentials s id), RevokeCredential id))
           (fun s' => _credentials s' id = _credentials s id));
    [|exact Hall|reflexivity].
  intros s0 tx Htx Hs0.
  destruct (exec_frame_cred s0 tx) as (_ & _ & Hrec).
  destruct (Hrec id) as (_ & _ & _ & _ & Hkept); [now rewrite Hs0|].
  rewrite Hkept; [exact Hs0 | now rewrite Hs0].
Qed.

Lemma verify_of_record (s : state) (id : bytes32) (i : address) (subj : bytes32) (h : string) :
  i <> address0 ->
  _credentials s id = {| issuer := i; subjectDID := subj; ipfsHash := h; revoked := false |} ->
  verifyCredential s id = (true, i, h).
Proof.
  intros Hi Hrec. unfold verifyCredential. rewrite Hrec. cbn.
  apply Z.eqb_neq in Hi. now rewrite Hi.
Qed.

(** X1.  A trusted issuer (not the zero address) that issues a credential
    under an unused identifier succeeds, and from then on
    [verifyCredential] answers (true, that issuer, the content address
    given) after every sequence of transactions in which the issuer does
    not itself revoke that credential: nobody else can invalidate it, and
    removing the issuer from the trusted set does not either. *)
Theorem credential_valid_until_issuer_revokes (s : state) (sender : address)
    (id subj : bytes32) (hash : string) :
  trustedIssuers s sender = true ->
  sender <> address0 ->
  issuer (_credentials s id) = address0 ->
  exists s', issueCredential s sender id subj hash = Ok s'
    /\ forall txs,
         Forall (fun tx => tx <> (sender, RevokeCredential id)) txs ->
         verifyCredential (run s' txs) id = (true, sender, hash).
Proof.
  intros Htrust Hsender Hfree. unfold_cred. rewrite Htrust, Hfree. cbn.
  eexists. split; [reflexivity|]. intros txs Hall.
  match goal with |- verifyCredential (run ?s1 txs) id = _ => set (s1' := s1) end.
  assert (_credentials s1' id
          = {| issuer := sender; subjectDID := subj; ipfsHash := hash; revoked := false |}) as Hrec.
  { subst s1'. cbn. apply upd_same. }
  apply (verify_of_record _ _ _ subj); [exact Hsender|].
  rewrite run_cred_untouched; [exact Hrec | now rewrite Hrec | now rewrite Hrec].
Qed.

(** X2.  Revocation of an existing credential is final: after every
    sequence of transactions its record is what it was, [verifyCredential]
    answers (false, zero address, empty string), and a further
    [revokeCredential] fails for every caller. *)
Theorem credential_revocation_is_final (s : state) (id : bytes32) :
  issuer (_credentials s id) <> address0 ->
  revoked (_credentials s id) = true ->
  forall txs,
    _credentials (run s txs) id = _credentials s id
    /\ verifyCredential (run s txs) id = (false, address0, EmptyString)
    /\ forall sender, exists e, revokeCredential (run s txs) sender id = Err e.
Proof.
  intros Hid Hrev txs.
  pose proof (run_cred_revoked_frozen s id txs Hid Hrev) as Hfrozen.
  split; [exact Hfrozen|]. split.
  - unfold verifyCredential. rewrite Hfrozen, Hrev. now rewrite orb_true_r.
  - intros sender. unfold_cred. rewrite Hfrozen, Hrev.
    destruct (issuer (_credentials s id) =? sender); cbn; eauto.
Qed.

(** X3.  The issuer, the subject and the content address of an existing
    credential never change, whatever transactions follow, and its
    identifier can never be issued again, by anyone. *)
Theorem credential_is_immutable (s : state) (id : bytes32) :
  issuer (_credentials s id) <> address0 ->
  forall txs,
    issuer (_credentials (run s txs) id) = issuer (_credentials s id)
    /\ subjectDID (_credentials (run s txs) id) = subjectDID (_credentials s id)
    /\ ipfsHash (_credentials (run s txs) id) = ipfsHash (_credentials s id)
    /\ forall sender subj hash,
         exists e, issueCredential (run s txs) sender id subj hash = Err e
                   /\ exec (run s txs) (sender, IssueCredential id subj hash) = run s txs.
Proof.
  intros Hid txs.
  destruct (run_cred_fields s id txs Hid) as (Hi & Hs & Hh).
  repeat split; try assumption.
  intros sender subj hash.
  assert (exists e, issueCredential (run s txs) sender id subj hash = Err e) as [e He].
  { unfold_cred. destruct (trustedIssuers (run s txs) sender); cbn; [|eauto].
    rewrite Hi. apply Z.eqb_neq in Hid. rewrite Hid. cbn. eauto. }
  exists e. split; [exact He|].
  unfold exec. cbn [fst snd dispatch]. now rewrite He.
Qed.

(** X4.  Removing an issuer from the trusted set takes away the right to
    issue and nothing else: for an unrevoked credential of a trusted
    issuer, after the owner's [removeIssuer] the issuer can issue nothing,
    the credential still verifies, and the issuer can still revoke it,
    after which it verifies no more. *)
Theorem removed_issuer_keeps_its_credentials (s : state) (id : bytes32) :
  issuer (_credentials s id) <> address0 ->
  revoked (_credentials s id) = false ->
  trustedIssuers s (issuer (_credentials s id)) = true ->
  exists s1,
    removeIssuer s (owner s) (issuer (_credentials s id)) = Ok s1
    /\ trustedIssuers s1 (issuer (_credentials s id)) = false
    /\ (forall id2 subj hash,
          issueCredential s1 (issuer (_credentials s id)) id2 subj hash = Err NotTrustedIssuer)
    /\ verifyCredential s1 id
       = (true, issuer (_credentials s id), ipfsHash (_credentials s id))
    /\ exists s2,
         revokeCredential s1 (issuer (_credentials s id)) id = Ok s2
         /\ verifyCredential s2 id = (false, address0, EmptyString).
Proof.
  intros Hid Hrev Htrust.
  assert ((issuer (_credentials s id) =? address0) = false) as Hb by now apply Z.eqb_neq.
  unfold_cred. rewrite Z.eqb_refl, Htrust. cbn.
  eexists. split; [reflexivity|]. cbn.
  split; [apply upd_same|]. split.
  - intros id2 subj hash. now rewrite upd_same.
  - unfold verifyCredential. cbn. rewrite Hb, Hrev, Z.eqb_refl. cbn.
    split; [reflexivity|].
    eexists. split; [reflexivity|]. cbn. rewrite upd_same. cbn.
    now rewrite orb_true_r.
Qed.

(** X5.  [revokeCredential] has one guard for existence and authority: on
    an identifier never issued it fails with "Caller is not the issuer"
    for every caller other than the zero address, as it does for a caller
    other than the issuer of an existing credential; for the issuer of an
    already revoked credential it fails with "Credential already revoked";
    a failed call changes nothing. *)
Theorem revokeCredential_failures (s : state) (sender : address) (id : bytes32) :
  sender <> address0 ->
  (issuer (_credentials s id) = address0 ->
     revokeCredential s sender id = Err NotIssuer)
  /\ (sender <> issuer (_credentials s id) ->
      revokeCredential s sender id = Err NotIssuer)
  /\ (sender = issuer (_credentials s id) ->
      revoked (_credentials s id) = true ->
      revokeCredential s sender id = Err CredentialAlreadyRevoked)
  /\ (forall e, revokeCredential s sender id = Err e ->
        exec s (sender, RevokeCredential id) = s).
Proof.
  intros Hsender.
  assert (sender <> issuer (_credentials s id) ->
          revokeCredential s sender id = Err NotIssuer) as Hother.
  { intros Hne. unfold_cred.
    assert ((issuer (_credentials s id) =? sender) = false) as Hb
        by (apply Z.eqb_neq; congruence).
    now rewrite Hb. }
  split; [|split; [|split]].
  - intros Hnone. apply Hother. congruence.
  - exact Hother.
  - intros -> Hrev. unfold_cred. now rewrite Z.eqb_refl, Hrev.
  - intros e He. unfold exec. cbn [fst snd dispatch]. now rewrite He.
Qed.

(** X6.  The owner is fixed at deployment, and only the owner changes the
    trusted set: after any sequence of transactions the owner is the same;
    a sequence without a transaction of the owner leaves every account's
    trusted flag as it was; [addIssuer] and [removeIssuer] by another
    caller fail with "Caller is not the owner". *)
Theorem trusted_set_is_the_owners (s : state) :
  (forall txs, owner (run s txs) = owner s)
  /\ (forall txs, Forall (fun tx => fst tx <> owner s) txs ->
        forall a, trustedIssuers (run s txs) a = trustedIssuers s a)
  /\ (forall sender a, sender <> owner s ->
        addIssuer s sender a = Err NotOwner
        /\ removeIssuer s sender a = Err NotOwner).
Proof.
  split; [|split].
  - intros txs. apply run_owner_stable.
  - intros txs Hall a.
    apply (fold_left_invariant exec (fun tx => fst tx <> owner s)
             (fun s' => owner s' = owner s
                        /\ trustedIssuers s' a = trustedIssuers s a));
      [|exact Hall|split; reflexivity].
    intros s0 tx Htx [Ho Ht].
    destruct (exec_frame_cred s0 tx) as (Ho' & Ht' & _).
    split; [congruence|]. rewrite Ht'; [exact Ht | now rewrite Ho].
  - intros sender a Hne. unfold_cred.
    apply Z.eqb_neq in Hne. now rewrite Hne.
Qed.

(** X7.  Adding an untrusted account and removing it again, both by the
    owner, succeed and give back the trusted set, the credentials and the
    owner as they were; in between the account is trusted and adding it
    again fails with "Issuer already trusted"; afterwards removing it
    again fails with "Issuer not trusted". *)
Theorem addIssuer_removeIssuer_roundtrip (s : state) (a : address) :
  trustedIssuers s a = false ->
  exists s1 s2,
    addIssuer s (owner s) a = Ok s1
    /\ trustedIssuers s1 a = true
    /\ addIssuer s1 (owner s) a = Err IssuerAlreadyTrusted
    /\ removeIssuer s1 (owner s) a = Ok s2
    /\ (forall b, trustedIssuers s2 b = trustedIssuers s b)
    /\ _credentials s2 = _credentials s
    /\ owner s2 = owner s
    /\ logs s2 = logs s ++ [IssuerAdded a; IssuerRemoved a]
    /\ removeIssuer s2 (owner s) a = Err IssuerNotTrusted.
Proof.
  intros Hnot. unfold_cred. rewrite Z.eqb_refl, Hnot. cbn.
  eexists. eexists. split; [reflexivity|]. cbn. rewrite Z.eqb_refl, upd_same. cbn.
  split; [reflexivity|]. split; [reflexivity|]. split; [reflexivity|]. cbn.
  rewrite upd_same. cbn.
  repeat split.
  - intros b. unfold upd. destruct (b =? a) eqn:Hb; [|reflexivity].
    apply Z.eqb_eq in Hb. now subst b.
  - now rewrite <- app_assoc.
  - now rewrite Z.eqb_refl.
Qed.

(** X8.  Nothing is in the state without having been logged.  In every
    state the contract can reach after deployment: an existing credential
    has its [CredentialIssued] event, with its issuer and subject, in the
    log; a credential marked revoked has its [CredentialRevoked] event; a
    trusted account is the deployer or has an [IssuerAdded] event. *)
Theorem credential_state_is_logged (deployer : address) (txs : list (address * call)) :
  (forall id, issuer (_credentials (run (constructor deployer) txs) id) <> address0 ->
     In (CredentialIssued id
           (issuer (_credentials (run (constructor deployer) txs) id))
           (subjectDID (_credentials (run (constructor deployer) txs) id)))
        (logs (run (constructor deployer) txs)))
  /\ (forall id, revoked (_credentials (run (constructor deployer) txs) id) = true ->
        In (CredentialRevoked id) (logs (run (constructor deployer) txs)))
  /\ (forall a, trustedIssuers (run (constructor deployer) txs) a = true ->
        a = deployer \/ In (IssuerAdded a) (logs (run (constructor deployer) txs))).
Proof.
  apply (fold_left_invariant exec (fun _ => True)
           (fun s =>
              (forall id, issuer (_credentials s id) <> address0 ->
                 In (CredentialIssued id (issuer (_credentials s id))
                       (subjectDID (_credentials s id))) (logs s))
              /\ (forall id, revoked (_credentials s id) = true ->
                    In (CredentialRevoked id) (logs s))
              /\ (forall a, trustedIssuers s a = true ->
                    a = deployer \/ In (IssuerAdded a) (logs s))));
    [|apply Forall_trivial|].
  - intros s [sender c] _ (Hiss & Hrev & Htr). unfold exec. cbn [fst snd].
    destruct (dispatch s sender c) as [s'|e] eqn:Hd; [|now repeat split].
    destruct c as [a0 | a0 | id0 subj hash | id0]; unfold_cred; split_guards Hd;
      injection Hd as <-; cbn; (split; [|split]).
    + intros id Hid. apply in_or_app. left. now apply Hiss.
    + intros id Hid. apply in_or_app. left. now apply Hrev.
    + intros a. unfold upd. destruct (a =? a0) eqn:Ha.
      * intros _. right. apply in_or_app. right. apply Z.eqb_eq in Ha. subst. now left.
      * intros Hta. destruct (Htr a Hta); [now left | right; apply in_or_app; now left].
    + intros id Hid. apply in_or_app. left. now apply Hiss.
    + intros id Hid. apply in_or_app. left. now apply Hrev.
    + intros a. unfold upd. destruct (a =? a0) eqn:Ha; [discriminate|].
      intros Hta. destruct (Htr a Hta); [now left | right; apply in_or_app; now left].
    + intros id. unfold upd. destruct (id =? id0) eqn:Hsame.
      * intros _. apply Z.eqb_eq in Hsame. subst. cbn.
        apply in_or_app. right. now left.
      * intros Hid. apply in_or_app. left. now apply Hiss.
    + intros id. unfold upd. destruct (id =? id0) eqn:Hsame; [discriminate|].
      intros Hid. apply in_or_app. left. now apply Hrev.
    + intros a Hta. destruct (Htr a Hta); [now left | right; apply in_or_app; now left].
    + intros id. unfold upd. destruct (id =? id0) eqn:Hsame.
      * cbn. apply Z.eqb_eq in Hsame. subst. intros Hid.
        apply in_or_app. left. now apply Hiss.
      * intros Hid. apply in_or_app. left. now apply Hiss.
    + intros id. unfold upd. destruct (id =? id0) eqn:Hsame.
      * intros _. apply Z.eqb_eq in Hsame. subst.
        apply in_or_app. right. now left.
      * intros Hid. apply in_or_app. left. now apply Hrev.
    + intros a Hta. destruct (Htr a Hta); [now left | right; apply in_or_app; now left].
  - cbn. repeat split.
    + intros id Hid. now contradiction Hid.
    + intros id Hid. discriminate.
    + intros a. unfold upd. destruct (a =? deployer) eqn:Ha; [|discriminate].
      intros _. left. now apply Z.eqb_eq.
Qed.

End VerifiableCredentialFacts.

(* ================================================================= *)
(** ** Further properties of the identity ledger *)

Section DIDRegistryIndex.

Import DIDRegistry.

Variable keccak256 : list Z -> bytes32.

Local Abbreviation deriveDID := (DIDRegistry.deriveDID keccak256).
Local Abbreviation createDID := (DIDRegistry.createDID keccak256).
Local Abbreviation dispatch := (DIDRegistry.dispatch keccak256).
Local Abbreviation exec := (DIDRegistry.exec keccak256).
Local Abbreviation run := (DIDRegistry.run keccak256).
Local Abbreviation derivedUpTo := (DIDIndex.derivedUpTo keccak256).

Lemma derivedUpTo_succ (a : address) (n : uint256) :
  0 <= n -> derivedUpTo a (n + 1) = derivedUpTo a n ++ [deriveDID a n].
Proof.
  intros Hn. unfold DIDIndex.derivedUpTo.
  replace (n + 1) with (Z.succ n) by lia.
  rewrite Z2Nat.inj_succ by exact Hn.
  rewrite seq_S, map_app. cbn. now rewrite Z2Nat.id.
Qed.

(** X9.  On an identifier without a record, [resolveDID] fails with "DID
    does not exist", and so do [updateDID] and [revokeDID] for every
    caller (the existence check comes before the controller check); the
    failed transactions change nothing. *)
Theorem did_missing_identifier_not_found (s : state) (did : bytes32) :
  controller (dids s did) = address0 ->
  resolveDID s did = Err NotFound
  /\ forall sender newCid,
       updateDID s sender did newCid = Err NotFound
       /\ revokeDID s sender did = Err NotFound
       /\ exec s (sender, UpdateDID did newCid) = s
       /\ exec s (sender, RevokeDID did) = s.
Proof.
  intros Hnone. unfold DIDRegistry.exec. cbn [fst snd DIDRegistry.dispatch].
  unfold_did. rewrite Hnone. cbn. repeat split.
Qed.

(** X10.  An update by the controller of an active record succeeds and is
    what [resolveDID] reports next, with controller and status as before;
    no other record, no nonce and no index changes; a second update
    replaces the first. *)
Theorem did_update_resolve_roundtrip (s : state) (did : bytes32) (newCid : string) :
  controller (dids s did) <> address0 ->
  status (dids s did) = Active ->
  exists s',
    updateDID s (controller (dids s did)) did newCid = Ok s'
    /\ resolveDID s' did = Ok (controller (dids s did), newCid, Active)
    /\ (forall other, other <> did -> dids s' other = dids s other)
    /\ nonces s' = nonces s
    /\ ownerToDIDs s' = ownerToDIDs s
    /\ logs s' = logs s ++ [DIDUpdated did newCid]
    /\ forall cid2, exists s'',
         updateDID s' (controller (dids s did)) did cid2 = Ok s''
         /\ resolveDID s'' did = Ok (controller (dids s did), cid2, Active).
Proof.
  intros Hlive Hactive.
  assert ((controller (dids s did) =? address0) = false) as Hb by now apply Z.eqb_neq.
  unfold_did. rewrite Hb, Z.eqb_refl, Hactive. cbn.
  eexists. split; [reflexivity|]. cbn. rewrite !upd_same. cbn. rewrite Hb. cbn.
  split; [reflexivity|].
  split; [intros other Hother; now apply upd_other|].
  split; [reflexivity|]. split; [reflexivity|]. split; [reflexivity|].
  intros cid2. rewrite Z.eqb_refl. cbn.
  eexists. split; [reflexivity|]. cbn. rewrite upd_same. cbn. now rewrite Hb.
Qed.

(** The reverse index of a reachable state, account by account. *)
Lemma reachable_index_derived (txs : list (address * call)) :
  forall b, 0 <= nonces (run empty txs) b
            /\ ownerToDIDs (run empty txs) b = derivedUpTo b (nonces (run empty txs) b).
Proof.
  apply (fold_left_invariant exec (fun _ => True)
           (fun s => forall b, 0 <= nonces s b
                               /\ ownerToDIDs s b = derivedUpTo b (nonces s b)));
    [|apply Forall_trivial|intros b; cbn; split; [lia|reflexivity]].
  intros s [sender c] _ Hs. unfold DIDRegistry.exec. cbn [fst snd].
  destruct (dispatch s sender c) as [s'|e] eqn:Hd; [|exact Hs].
  destruct c as [c | d c | d]; unfold_did; split_guards Hd;
    injection Hd as <-; cbn; try exact Hs.
  intros b. unfold upd. destruct (b =? sender) eqn:Hb; [|apply Hs].
  apply Z.eqb_eq in Hb. subst b. destruct (Hs sender) as [Hn Hl].
  split; [lia|]. rewrite derivedUpTo_succ by exact Hn. now rewrite Hl.
Qed.

(** X11.  In every state reachable from the empty ledger, the list
    [getDIDsByOwner] returns for an account is exactly the identifiers
    derived from that account and the nonces 0, 1, ... below its current
    nonce, in that order; so its length is the nonce. *)
Theorem did_index_is_derived_sequence (txs : list (address * call)) (a : address) :
  0 <= nonces (run empty txs) a
  /\ getDIDsByOwner (run empty txs) a = derivedUpTo a (nonces (run empty txs) a)
  /\ Z.of_nat (length (getDIDsByOwner (run empty txs) a)) = nonces (run empty txs) a.
Proof.
  destruct (reachable_index_derived txs a) as [Hn Hl].
  unfold DIDRegistry.getDIDsByOwner.
  split; [exact Hn|]. split; [exact Hl|].
  rewrite Hl. unfold DIDIndex.derivedUpTo.
  rewrite length_map, length_seq. now apply Z2Nat.id.
Qed.

(** X12.  In every state reachable from the empty ledger, for an account
    other than the zero address: [getDIDsByOwner] lists no identifier
    twice, and an identifier is in the list exactly when its record has
    that account as controller. *)
Theorem did_index_matches_records (txs : list (address * call)) (owner : address) :
  owner <> address0 ->
  NoDup (getDIDsByOwner (run empty txs) owner)
  /\ forall did, In did (getDIDsByOwner (run empty txs) owner)
                 <-> controller (dids (run empty txs) did) = owner.
Proof.
  revert owner.
  apply (fold_left_invariant exec (fun _ => True)
           (fun s => forall o, o <> address0 ->
                       NoDup (ownerToDIDs s o)
                       /\ forall d, In d (ownerToDIDs s o) <-> controller (dids s d) = o));
    [|apply Forall_trivial|].
  - intros s [sender c] _ Hs. unfold DIDRegistry.exec. cbn [fst snd].
    destruct (dispatch s sender c) as [s'|e] eqn:Hd; [|exact Hs].
    destruct c as [c | d c | d]; unfold_did; split_guards Hd;
      injection Hd as <-; cbn.
    + apply Z.eqb_eq in Heqb. intros o Ho. destruct (Hs o Ho) as [Hnd Hin].
      unfold upd. destruct (o =? sender) eqn:Hos.
      * apply Z.eqb_eq in Hos. subst o. split.
        -- apply NoDup_app; [exact Hnd | repeat constructor; intros [] |].
           intros x Hx [<-|[]]. apply Hin in Hx. congruence.
        -- intros d. destruct (d =? deriveDID sender (nonces s sender)) eqn:Hdd.
           ++ apply Z.eqb_eq in Hdd. subst d. cbn.
              split; [reflexivity | intros _; apply in_or_app; right; now left].
           ++ apply Z.eqb_neq in Hdd. rewrite <- Hin. split.
              ** intros Hx. apply in_app_or in Hx. destruct Hx as [Hx|[Hx|[]]]; congruence.
              ** intros Hx. apply in_or_app. now left.
      * apply Z.eqb_neq in Hos. split; [exact Hnd|].
        intros d. destruct (d =? deriveDID sender (nonces s sender)) eqn:Hdd.
        -- apply Z.eqb_eq in Hdd. subst d. cbn. rewrite Hin. split; congruence.
        -- apply Hin.
    + intros o Ho. destruct (Hs o Ho) as [Hnd Hin]. split; [exact Hnd|].
      intros d0. unfold upd. destruct (d0 =? d) eqn:Hdd; [|apply Hin].
      apply Z.eqb_eq in Hdd. subst d0. cbn. apply Hin.
    + intros o Ho. destruct (Hs o Ho) as [Hnd Hin]. split; [exact Hnd|].
      intros d0. unfold upd. destruct (d0 =? d) eqn:Hdd; [|apply Hin].
      apply Z.eqb_eq in Hdd. subst d0. cbn. apply Hin.
  - intros o Ho. cbn. split; [constructor|].
    intros d. split; [intros [] | intros Hx; now contradiction Ho].
Qed.

(** X13.  Accounts are isolated from one another: a sequence of
    transactions none of which is sent by an account changes neither that
    account's nonce, nor its index, nor any record it controls. *)
Theorem did_accounts_are_isolated (s : state) (txs : list (address * call)) (b : address) :
  Forall (fun tx => fst tx <> b) txs ->
  nonces (run s txs) b = nonces s b
  /\ getDIDsByOwner (run s txs) b = getDIDsByOwner s b
  /\ forall did, controller (dids s did) = b -> b <> address0 ->
                 dids (run s txs) did = dids s did.
Proof.
  intros Hall. unfold DIDRegistry.getDIDsByOwner. split; [|split].
  - apply (fold_left_invariant exec (fun tx => fst tx <> b)
             (fun s' => nonces s' b = nonces s b)); [|exact Hall|reflexivity].
    intros s0 [sender c] Htx Hs0. cbn in Htx. unfold DIDRegistry.exec. cbn [fst snd].
    destruct (dispatch s0 sender c) as [s'|e] eqn:Hd; [|exact Hs0].
    destruct c as [c | d c | d]; unfold_did; split_guards Hd;
      injection Hd as <-; cbn; try exact Hs0.
    rewrite upd_other by congruence. exact Hs0.
  - apply (fold_left_invariant exec (fun tx => fst tx <> b)
             (fun s' => ownerToDIDs s' b = ownerToDIDs s b)); [|exact Hall|reflexivity].
    intros s0 [sender c] Htx Hs0. cbn in Htx. unfold DIDRegistry.exec. cbn [fst snd].
    destruct (dispatch s0 sender c) as [s'|e] eqn:Hd; [|exact Hs0].
    destruct c as [c | d c | d]; unfold_did; split_guards Hd;
      injection Hd as <-; cbn; try exact Hs0.
    rewrite upd_other by congruence. exact Hs0.
  - intros did Hc Hb. apply run_others_frozen; [congruence|].
    rewrite Hc. exact Hall.
Qed.

(** X14.  The log tells the status.  In every state reachable from the
    empty ledger, a record is Revoked exactly when a [DIDRevoked] event
    for its identifier is in the log, and every existing record has a
    [DIDRegistered] event with its identifier and controller. *)
Theorem did_log_matches_status (txs : list (address * call)) (did : bytes32) :
  (In (DIDRevoked did) (logs (run empty txs))
   <-> status (dids (run empty txs) did) = Revoked)
  /\ (controller (dids (run empty txs) did) <> address0 ->
      exists c, In (DIDRegistered did (controller (dids (run empty txs) did)) c)
                   (logs (run empty txs))).
Proof.
  assert (forall d,
            (In (DIDRevoked d) (logs (run empty txs))
             <-> status (dids (run empty txs) d) = Revoked)
            /\ (status (dids (run empty txs) d) = Revoked ->
                controller (dids (run empty txs) d) <> address0)
            /\ (controller (dids (run empty txs) d) <> address0 ->
                exists c, In (DIDRegistered d (controller (dids (run empty txs) d)) c)
                             (logs (run empty txs)))) as Hinv.
  { apply (fold_left_invariant exec (fun _ => True)
             (fun s => forall d,
                (In (DIDRevoked d) (logs s) <-> status (dids s d) = Revoked)
                /\ (status (dids s d) = Revoked -> controller (dids s d) <> address0)
                /\ (controller (dids s d) <> address0 ->
                    exists c, In (DIDRegistered d (controller (dids s d)) c) (logs s))));
      [|apply Forall_trivial|].
    - intros s [sender c] _ Hs. unfold DIDRegistry.exec. cbn [fst snd].
      destruct (dispatch s sender c) as [s'|e] eqn:Hd; [|exact Hs].
      destruct c as [c | d c | d]; unfold_did; split_guards Hd;
        injection Hd as <-; cbn; intros d0; destruct (Hs d0) as (Hrev & Hlive & Hreg).
      + apply Z.eqb_eq in Heqb. unfold upd.
        destruct (d0 =? deriveDID sender (nonces s sender)) eqn:Hdd.
        * apply Z.eqb_eq in Hdd. subst d0. cbn. split; [|split].
          -- split; [|discriminate]. intros Hx. apply in_app_or in Hx.
             destruct Hx as [Hx|[Hx|[]]]; [|discriminate].
             apply Hrev, Hlive in Hx. contradiction.
          -- discriminate.
          -- intros _. exists c. apply in_or_app. right. now left.
        * split; [|split].
          -- rewrite <- Hrev. split.
             ++ intros Hx. apply in_app_or in Hx. destruct Hx as [Hx|[Hx|[]]];
                  [exact Hx | discriminate].
             ++ intros Hx. apply in_or_app. now left.
          -- exact Hlive.
          -- intros Hx. destruct (Hreg Hx) as [c0 Hc0]. exists c0.
             apply in_or_app. now left.
      + unfold upd. destruct (d0 =? d) eqn:Hdd.
        * apply Z.eqb_eq in Hdd. subst d0. cbn. split; [|split].
          -- rewrite <- Hrev. split.
             ++ intros Hx. apply in_app_or in Hx. destruct Hx as [Hx|[Hx|[]]];
                  [exact Hx | discriminate].
             ++ intros Hx. apply in_or_app. now left.
          -- exact Hlive.
          -- intros Hx. destruct (Hreg Hx) as [c0 Hc0]. exists c0.
             apply in_or_app. now left.
        * split; [|split].
          -- rewrite <- Hrev. split.
             ++ intros Hx. apply in_app_or in Hx. destruct Hx as [Hx|[Hx|[]]];
                  [exact Hx | discriminate].
             ++ intros Hx. apply in_or_app. now left.
          -- exact Hlive.
          -- intros Hx. destruct (Hreg Hx) as [c0 Hc0]. exists c0.
             apply in_or_app. now left.
      + unfold upd. destruct (d0 =? d) eqn:Hdd.
        * apply Z.eqb_eq in Hdd. subst d0. cbn. split; [|split].
          -- split; [reflexivity|]. intros _. apply in_or_app. right. now left.
          -- intros _. apply Z.eqb_neq. now apply negb_true_iff in Heqb.
          -- intros Hx. destruct (Hreg Hx) as [c0 Hc0]. exists c0.
             apply in_or_app. now left.
        * apply Z.eqb_neq in Hdd. split; [|split].
          -- rewrite <- Hrev. split.
             ++ intros Hx. apply in_app_or in Hx. destruct Hx as [Hx|[Hx|[]]];
                  [exact Hx | congruence].
             ++ intros Hx. apply in_or_app. now left.
          -- exact Hlive.
          -- intros Hx. destruct (Hreg Hx) as [c0 Hc0]. exists c0.
             apply in_or_app. now left.
    - intros d. cbn. split; [|split].
      + split; [intros [] | discriminate].
      + discriminate.
      + intros Hx. now contradiction Hx. }
  destruct (Hinv did) as (Hrev & _ & Hreg). split; assumption.
Qed.

(** X15.  What the page shows.  In every state reachable from the empty
    ledger, [fetchUserDID] shows nothing for an account whose nonce is 0
    and otherwise the identifier the account derived at nonce 0; and from
    any state, once it shows an identifier it shows that identifier after
    every further sequence of transactions. *)
Theorem frontend_shown_did (a : address) :
  (forall txs,
     Frontend.fetchUserDID (run empty txs) a
     = if nonces (run empty txs) a =? 0 then None else Some (deriveDID a 0))
  /\ (forall s did txs,
        Frontend.fetchUserDID s a = Some did ->
        Frontend.fetchUserDID (run s txs) a = Some did).
Proof.
  split.
  - intros txs.
    destruct (reachable_index_derived txs a) as [Hn Hl].
    unfold Frontend.fetchUserDID, DIDRegistry.getDIDsByOwner. rewrite Hl.
    unfold DIDIndex.derivedUpTo.
    destruct (Z.eqb_spec (nonces (run empty txs) a) 0) as [Hz|Hz].
    + rewrite Hz. reflexivity.
    + destruct (Z.to_nat (nonces (run empty txs) a)) as [|k] eqn:Hk; [lia|].
      reflexivity.
  - intros s did txs.
    apply (fold_left_invariant exec (fun _ => True)
             (fun s' => Frontend.fetchUserDID s' a = Some did)); [|apply Forall_trivial].
    intros s0 tx _ Hs0. unfold Frontend.fetchUserDID, DIDRegistry.getDIDsByOwner in *.
    destruct (ownerToDIDs s0 a) as [|d0 rest] eqn:Hl0; [discriminate|].
    injection Hs0 as ->.
    destruct tx as [sender c]. unfold DIDRegistry.exec. cbn [fst snd].
    destruct (dispatch s0 sender c) as [s'|e] eqn:Hd; [|now rewrite Hl0].
    destruct c as [c | d c | d]; unfold_did; split_guards Hd;
      injection Hd as <-; cbn; try (now rewrite Hl0).
    unfold upd. destruct (a =? sender) eqn:Has; [|now rewrite Hl0].
    apply Z.eqb_eq in Has. subst sender. now rewrite Hl0.
Qed.

End DIDRegistryIndex.

(* ================================================================= *)
(** ** Further properties of the batch ledger *)

Lemma in_snoc {A : Type} (x e : A) (l : list A) :
  In x (l ++ [e]) <-> In x l \/ x = e.
Proof.
  split.
  - intros H. apply in_app_or in H. destruct H as [H|[H|[]]]; [now left | now right].
  - intros [H| ->]; apply in_or_app; [now left | right; now left].
Qed.

Section VCRegistryLedger.

Import VCRegistry.

Variable keccak256 : list Z -> bytes32.

Local Abbreviation ISSUER_ROLE := (VCRegistry.ISSUER_ROLE keccak256).
Local Abbreviation constructor := (VCRegistry.constructor keccak256).
Local Abbreviation dispatch := (VCRegistry.dispatch keccak256).
Local Abbreviation exec := (VCRegistry.exec keccak256).
Local Abbreviation run := (VCRegistry.run keccak256).
Local Abbreviation grantIssuerRole := (VCRegistry.grantIssuerRole keccak256).
Local Abbreviation issueBatchCredentials := (VCRegistry.issueBatchCredentials keccak256).
Local Abbreviation verifyCredential := (VCRegistry.verifyCredential keccak256).
Local Abbreviation verifyProof := (MerkleEngine.verifyProof keccak256).
Local Abbreviation logged := VCRegistryCalls.logged.

(** X16.  Publishing and verifying.  A holder of the issuer role (not the
    zero address) that publishes an unused root succeeds, is recorded as
    the root's issuer and logged; from then on, after every sequence of
    transactions, [verifyCredential] under that root answers (true, that
    issuer) exactly for the leaves that are not revoked and whose proof
    verifies, and (false, zero address) for all others. *)
Theorem published_root_verdicts (s : state) (sender : address) (root : bytes32) :
  hasRole s ISSUER_ROLE sender = true ->
  sender <> address0 ->
  merkleRootToIssuer s root = address0 ->
  exists s',
    issueBatchCredentials s sender root = Ok s'
    /\ merkleRootToIssuer s' root = sender
    /\ logs s' = logs s ++ [BatchCredentialsIssued root sender]
    /\ forall txs leaf proof,
         verifyCredential (run s' txs) leaf root proof
         = Ok (if negb (isBatchCredentialRevoked (run s' txs) leaf)
                  && verifyProof leaf root proof
               then (true, sender)
               else (false, address0)).
Proof.
  intros Hrole Hsender Hfree. unfold_vc. rewrite Hrole, Hfree. cbn.
  eexists. split; [reflexivity|]. cbn. rewrite upd_same.
  split; [reflexivity|]. split; [reflexivity|].
  intros txs leaf proof.
  match goal with |- verifyCredential (run ?s1 txs) _ _ _ = _ => set (s1' := s1) end.
  assert (merkleRootToIssuer (run s1' txs) root = sender) as Hkept.
  { rewrite run_issuer_stable; subst s1'; cbn; now rewrite upd_same. }
  unfold VCRegistry.verifyCredential. rewrite Hkept.
  apply Z.eqb_neq in Hsender. rewrite Hsender.
  destruct (isBatchCredentialRevoked (run s1' txs) leaf); [reflexivity|]. cbn.
  destruct (verifyProof leaf root proof); reflexivity.
Qed.

(** The role entry points write the role table and the log only. *)
Lemma roleCall_frame (s : state) (tx : address * call) :
  VCRegistryCalls.roleCall (snd tx) = true ->
  merkleRootToIssuer (exec s tx) = merkleRootToIssuer s
  /\ isBatchCredentialRevoked (exec s tx) = isBatchCredentialRevoked s.
Proof.
  destruct tx as [sender c]. cbn [snd]. intros Hc.
  unfold VCRegistry.exec. cbn [fst snd].
  destruct (dispatch s sender c) as [s'|e] eqn:Hd; [|split; reflexivity].
  destruct c; try discriminate Hc; unfold_vc; split_guards Hd;
    injection Hd as <-; cbn; split; reflexivity.
Qed.

(** X17.  Role management never touches the ledger.  After any sequence
    of role transactions (grant, revoke, renounce, by anyone) every root
    has the issuer it had, every leaf the revocation mark it had,
    [verifyCredential] answers as before and [revokeBatchCredential]
    succeeds or fails as before: taking the issuer role away from an
    account neither invalidates the batches it published nor stops it
    from revoking their leaves. *)
Theorem role_management_leaves_ledger_alone (s : state) (txs : list (address * call)) :
  Forall (fun tx => VCRegistryCalls.roleCall (snd tx) = true) txs ->
  merkleRootToIssuer (run s txs) = merkleRootToIssuer s
  /\ isBatchCredentialRevoked (run s txs) = isBatchCredentialRevoked s
  /\ (forall leaf root proof,
        verifyCredential (run s txs) leaf root proof = verifyCredential s leaf root proof)
  /\ (forall sender leaf root,
        (forall e, revokeBatchCredential s sender leaf root = Err e ->
                   revokeBatchCredential (run s txs) sender leaf root = Err e)
        /\ ((exists s1, revokeBatchCredential s sender leaf root = Ok s1) ->
            exists s2, revokeBatchCredential (run s txs) sender leaf root = Ok s2)).
Proof.
  intros Hall.
  assert (merkleRootToIssuer (run s txs) = merkleRootToIssuer s
          /\ isBatchCredentialRevoked (run s txs) = isBatchCredentialRevoked s) as [Hm Hr].
  { apply (fold_left_invariant exec (fun tx => VCRegistryCalls.roleCall (snd tx) = true)
             (fun s' => merkleRootToIssuer s' = merkleRootToIssuer s
                        /\ isBatchCredentialRevoked s' = isBatchCredentialRevoked s));
      [|exact Hall|split; reflexivity].
    intros s0 tx Htx [Hm0 Hr0]. destruct (roleCall_frame s0 tx Htx) as [Hm1 Hr1].
    split; congruence. }
  split; [exact Hm|]. split; [exact Hr|]. split.
  - intros leaf root proof. unfold VCRegistry.verifyCredential. now rewrite Hm, Hr.
  - intros sender leaf root.
    unfold VCRegistry.revokeBatchCredential, bind, require. rewrite Hm, Hr.
    destruct (negb (merkleRootToIssuer s root =? address0));
      [|split; [intros e He; exact He | intros [s1 H1]; discriminate]].
    destruct (sender =? merkleRootToIssuer s root);
      [|split; [intros e He; exact He | intros [s1 H1]; discriminate]].
    destruct (negb (isBatchCredentialRevoked s leaf));
      [|split; [intros e He; exact He | intros [s1 H1]; discriminate]].
    split; [intros e He; discriminate | intros _; eexists; reflexivity].
Qed.

Lemma grantRole_has (s : state) (sender : address) (role : bytes32) (account : address) :
  hasRole (_grantRole s sender role account) role account = true.
Proof.
  unfold VCRegistry._grantRole.
  destruct (hasRole s role account) eqn:Hh; [exact Hh|].
  unfold hasRole. cbn. now rewrite !upd_same.
Qed.

Lemma grantRole_keeps (s : state) (sender : address) (role : bytes32) (account : address)
    (r : bytes32) (x : address) :
  hasRole s r x = true ->
  hasRole (_grantRole s sender role account) r x = true.
Proof.
  intros Hx. unfold VCRegistry._grantRole.
  destruct (hasRole s role account) eqn:Hh; [exact Hx|].
  unfold hasRole in *. cbn. unfold upd.
  destruct (r =? role) eqn:Hr; [|exact Hx].
  apply Z.eqb_eq in Hr. subst r.
  destruct (x =? account); [reflexivity | exact Hx].
Qed.

(** X18.  Roles, as the repository's tests exercise them.  After
    deployment the deployer holds the admin and the issuer role.  An
    admin's [grantIssuerRole] gives an account the issuer role, after
    which that account can publish an unused root and is recorded as its
    issuer.  [grantIssuerRole] by a caller without the admin role and
    [issueBatchCredentials] by a caller without the issuer role fail and
    change nothing. *)
Theorem issuer_role_governs_publishing (s : state) (admin a : address) (root : bytes32) :
  hasRole s DEFAULT_ADMIN_ROLE admin = true ->
  merkleRootToIssuer s root = address0 ->
  (forall deployer,
     hasRole (constructor deployer) DEFAULT_ADMIN_ROLE deployer = true
     /\ hasRole (constructor deployer) ISSUER_ROLE deployer = true)
  /\ (exists s1,
        grantIssuerRole s admin a = Ok s1
        /\ hasRole s1 ISSUER_ROLE a = true
        /\ exists s2, issueBatchCredentials s1 a root = Ok s2
                      /\ merkleRootToIssuer s2 root = a)
  /\ (forall sender b, hasRole s DEFAULT_ADMIN_ROLE sender = false ->
        (exists e, grantIssuerRole s sender b = Err e)
        /\ exec s (sender, GrantIssuerRole b) = s)
  /\ (forall sender r, hasRole s ISSUER_ROLE sender = false ->
        (exists e, issueBatchCredentials s sender r = Err e)
        /\ exec s (sender, IssueBatchCredentials r) = s).
Proof.
  intros Hadmin Hfree. split; [|split; [|split]].
  - intros deployer. unfold VCRegistry.constructor. split.
    + apply grantRole_keeps, grantRole_has.
    + apply grantRole_has.
  - unfold VCRegistry.grantIssuerRole, VCRegistry.grantRole, VCRegistry.onlyRole, bind.
    rewrite Hadmin.
    pose proof (grantRole_has s admin ISSUER_ROLE a) as Hhas.
    assert (merkleRootToIssuer (_grantRole s admin ISSUER_ROLE a) = merkleRootToIssuer s)
      as Hmap.
    { unfold VCRegistry._grantRole. now destruct (hasRole s ISSUER_ROLE a). }
    eexists. split; [reflexivity|]. split; [exact Hhas|].
    unfold VCRegistry.issueBatchCredentials, VCRegistry.onlyRole, bind, require.
    rewrite Hhas, Hmap, Hfree. cbn.
    eexists. split; [reflexivity|]. cbn. apply upd_same.
  - intros sender b Hno.
    assert (exists e, grantIssuerRole s sender b = Err e) as [e He].
    { unfold VCRegistry.grantIssuerRole, VCRegistry.onlyRole, bind. rewrite Hno. eauto. }
    split; [eauto|]. unfold VCRegistry.exec. cbn [fst snd VCRegistry.dispatch].
    now rewrite He.
  - intros sender r Hno.
    assert (exists e, issueBatchCredentials s sender r = Err e) as [e He].
    { unfold VCRegistry.issueBatchCredentials, VCRegistry.onlyRole, bind. rewrite Hno. eauto. }
    split; [eauto|]. unfold VCRegistry.exec. cbn [fst snd VCRegistry.dispatch].
    now rewrite He.
Qed.

(** Appending an event that is neither a publication nor a revocation. *)
Lemma logged_role_event (s : state) (roles : bytes32 -> address -> bool) (e : event) :
  (forall l r a, e <> BatchCredentialRevoked l r a) ->
  logged s ->
  logged {| _roles := roles;
            merkleRootToIssuer := merkleRootToIssuer s;
            isBatchCredentialRevoked := isBatchCredentialRevoked s;
            logs := logs s ++ [e] |}.
Proof.
  intros Hne (Ha & Hb & Hc). unfold VCRegistryCalls.logged. cbn. split; [|split].
  - intros l. rewrite (Ha l). split; intros (r & a & H); exists r, a.
    + apply in_snoc. now left.
    + apply in_snoc in H. destruct H as [H|H]; [exact H|].
      exfalso. exact (Hne _ _ _ (eq_sym H)).
  - intros l r a H. apply in_snoc in H. destruct H as [H|H]; [exact (Hb l r a H)|].
    exfalso. exact (Hne _ _ _ (eq_sym H)).
  - intros r H. apply in_snoc. left. now apply Hc.
Qed.

Lemma exec_logged (s : state) (tx : address * call) : logged s -> logged (exec s tx).
Proof.
  intros Hs. destruct tx as [sender c]. unfold VCRegistry.exec. cbn [fst snd].
  destruct (dispatch s sender c) as [s'|e] eqn:Hd; [|exact Hs].
  destruct c; unfold_vc; split_guards Hd; injection Hd as <-;
    try exact Hs; try (apply logged_role_event; [discriminate | exact Hs]).
  - (* issueBatchCredentials *)
    destruct Hs as (Ha & Hb & Hc). apply Z.eqb_eq in Heqb0.
    unfold VCRegistryCalls.logged. cbn. split; [|split].
    + intros l. rewrite (Ha l). split; intros (r & a & H); exists r, a.
      * apply in_snoc. now left.
      * apply in_snoc in H. destruct H as [H|H]; [exact H | discriminate].
    + intros l r a H. apply in_snoc in H. destruct H as [H|H]; [|discriminate].
      destruct (Hb l r a H) as [Hnz Hr]. split; [exact Hnz|].
      rewrite upd_other; [exact Hr | congruence].
    + intros r. unfold upd. destruct (r =? _merkleRoot) eqn:Hr.
      * intros _. apply Z.eqb_eq in Hr. subst r. apply in_snoc. now right.
      * intros H. apply in_snoc. left. now apply Hc.
  - (* revokeBatchCredential *)
    destruct Hs as (Ha & Hb & Hc).
    apply negb_true_iff, Z.eqb_neq in Heqb. apply Z.eqb_eq in Heqb0.
    unfold VCRegistryCalls.logged. cbn. split; [|split].
    + intros l. unfold upd. destruct (l =? _leaf) eqn:Hl.
      * apply Z.eqb_eq in Hl. subst l. split; [|reflexivity].
        intros _. exists _merkleRoot, sender. apply in_snoc. now right.
      * rewrite (Ha l). apply Z.eqb_neq in Hl.
        split; intros (r & a & H); exists r, a.
        -- apply in_snoc. now left.
        -- apply in_snoc in H. destruct H as [H|H]; [exact H | congruence].
    + intros l r a H. apply in_snoc in H. destruct H as [H|H]; [exact (Hb l r a H)|].
      injection H as -> -> ->. split; congruence.
    + intros r H. apply in_snoc. left. now apply Hc.
Qed.

(** X19.  The ledger agrees with its log.  In every state reachable after
    deployment: a leaf is marked revoked exactly when the log holds a
    [BatchCredentialRevoked] event for it; the revoker named in such an
    event is the recorded issuer of the root named in it; and a root with
    a recorded issuer has its [BatchCredentialsIssued] event, naming that
    issuer, in the log. *)
Theorem ledger_agrees_with_log (deployer : address) (txs : list (address * call)) :
  (forall leaf,
     isBatchCredentialRevoked (run (constructor deployer) txs) leaf = true
     <-> exists root revoker,
           In (BatchCredentialRevoked leaf root revoker)
              (logs (run (constructor deployer) txs)))
  /\ (forall leaf root revoker,
        In (BatchCredentialRevoked leaf root revoker) (logs (run (constructor deployer) txs)) ->
        revoker <> address0
        /\ merkleRootToIssuer (run (constructor deployer) txs) root = revoker)
  /\ (forall root,
        merkleRootToIssuer (run (constructor deployer) txs) root <> address0 ->
        In (BatchCredentialsIssued root
              (merkleRootToIssuer (run (constructor deployer) txs) root))
           (logs (run (constructor deployer) txs))).
Proof.
  apply (fold_left_invariant exec (fun _ => True) logged);
    [intros s tx _; apply exec_logged | apply Forall_trivial |].
  assert (logged empty) as Hempty.
  { unfold VCRegistryCalls.logged. cbn. split; [|split].
    - intros l. split; [discriminate | intros (r & a & [])].
    - intros l r a [].
    - intros r H. now contradiction H. }
  unfold VCRegistry.constructor, VCRegistry._grantRole.
  destruct (hasRole empty DEFAULT_ADMIN_ROLE deployer);
    [destruct (hasRole empty ISSUER_ROLE deployer);
       [exact Hempty | apply (logged_role_event empty); [discriminate | exact Hempty]]|].
  match goal with
  | |- logged (if ?b then ?s1 else _) =>
      assert (logged s1) as H1
          by (apply (logged_role_event empty); [discriminate | exact Hempty]);
      destruct b; [exact H1 | apply (logged_role_event s1); [discriminate | exact H1]]
  end.
Qed.

End VCRegistryLedger.

(* ================================================================= *)
(** ** Properties of the client *)

Section FrontendFacts.

Import Frontend.
Local Open Scope string_scope.







(** X21.  Whatever the user types and clicks, starting from the blank
    page, every credential in the batch under construction has a
    recipient DID and a name that are not empty: [handleAddClick] lets
    nothing else in, and nothing else adds to the batch. *)
Theorem batch_entries_are_complete (events : list uiEvent) :
  Forall (fun c => userDid c <> "" /\ name c <> "")
         (credentialsToIssue (handleAll initialUi events)).
Proof.
  apply (fold_left_invariant handle (fun _ => True)
           (fun u => Forall (fun c => userDid c <> "" /\ name c <> "")
                            (credentialsToIssue u)));
    [|apply Forall_trivial|constructor].
  intros u e _ Hu. destruct e as [field value | | confirmed]; cbn.
  - exact Hu.
  - unfold handleAddClick.
    destruct (truthy (userDid (formData u))) eqn:Hd; [|exact Hu].
    destruct (truthy (name (formData u))) eqn:Hn; [|exact Hu].
    cbn. apply Forall_app. split; [exact Hu|].
    constructor; [|constructor].
    unfold truthy in *. apply negb_true_iff in Hd, Hn.
    split; now apply String.eqb_neq.
  - unfold handleIssueBatch.
    destruct (credentialsToIssue u) eqn:Hl; [now rewrite Hl|].
    destruct confirmed; [constructor | now rewrite Hl].
Qed.

End FrontendFacts.

(* ================================================================= *)
(** ** The further theorems at concrete inputs *)

Section DeployFacts.

Variable keccak256 : list Z -> bytes32.

(** X22.  The deployment script ends well and its role transaction is
    redundant: for every deployer, [grantRole(ISSUER_ROLE, deployer)]
    succeeds and leaves the freshly deployed [VCRegistry] exactly as its
    constructor made it (not even an event is logged), and the role check
    that follows reads true. *)
Theorem deploy_script_outcome (deployer : address) :
  Deploy.main keccak256 deployer
  = Ok (DIDRegistry.empty, VCRegistry.constructor keccak256 deployer, true).
Proof.
  unfold Deploy.main, VCRegistry.grantRole, VCRegistry.onlyRole, bind.
  assert (VCRegistry.hasRole (VCRegistry.constructor keccak256 deployer)
            VCRegistry.DEFAULT_ADMIN_ROLE deployer = true) as Hadmin
      by (unfold VCRegistry.constructor; apply grantRole_keeps, grantRole_has).
  assert (VCRegistry.hasRole (VCRegistry.constructor keccak256 deployer)
            (VCRegistry.ISSUER_ROLE keccak256) deployer = true) as Hissuer
      by (unfold VCRegistry.constructor; apply grantRole_has).
  rewrite Hadmin.
  assert (VCRegistry._grantRole (VCRegistry.constructor keccak256 deployer) deployer
            (VCRegistry.ISSUER_ROLE keccak256) deployer
          = VCRegistry.constructor keccak256 deployer) as Hsame.
  { unfold VCRegistry._grantRole at 1. now rewrite Hissuer. }
  rewrite Hsame, Hissuer. reflexivity.
Qed.

End DeployFacts.

Section MoreInstances.

Import Sample SampleCredentials.
Local Open Scope string_scope.

Example diploma_verifies :
  VerifiableCredential.verifyCredential issued diploma = (true, university, "QmDiploma").
Proof. vm_compute. reflexivity. Qed.

Example diploma_withdrawn :
  VerifiableCredential.verifyCredential withdrawn diploma = (false, address0, "").
Proof. vm_compute. reflexivity. Qed.

Example stranger_cannot_issue :
  VerifiableCredential.issueCredential trusting stranger diploma student "QmForged"
  = Err VerifiableCredential.NotTrustedIssuer.
Proof. vm_compute. reflexivity. Qed.

Example formatAddress_of_an_account :
  Frontend.formatAddress "0x71C7656EC7ab88b098defB751B7401B5f6d8976F" = "0x71C7...976F".
Proof. vm_compute. reflexivity. Qed.

Example formatAddress_of_a_short_string :
  Frontend.formatAddress "abc" = "abc...abc".
Proof. vm_compute. reflexivity. Qed.

Lemma credential_valid_until_issuer_revokes_witness :
  exists s',
    VerifiableCredential.issueCredential trusting university diploma student "QmDiploma" = Ok s'
    /\ forall txs,
         Forall (fun tx => tx <> (university, VerifiableCredential.RevokeCredential diploma)) txs ->
         VerifiableCredential.verifyCredential (VerifiableCredential.run s' txs) diploma
         = (true, university, "QmDiploma").
Proof.
  apply (credential_valid_until_issuer_revokes trusting university diploma student "QmDiploma").
  - vm_compute. reflexivity.
  - vm_compute. discriminate.
  - vm_compute. reflexivity.
Defined.

Lemma credential_revocation_is_final_witness :
  VerifiableCredential.verifyCredential
    (VerifiableCredential.run withdrawn
       [(university, VerifiableCredential.IssueCredential diploma student "QmAgain")])
    diploma
  = (false, address0, "").
Proof.
  assert (VerifiableCredential.issuer (VerifiableCredential._credentials withdrawn diploma)
          <> address0) as Hlive
      by (vm_compute; discriminate).
  assert (VerifiableCredential.revoked (VerifiableCredential._credentials withdrawn diploma)
          = true) as Hrev
      by (vm_compute; reflexivity).
  exact (proj1 (proj2 (credential_revocation_is_final withdrawn diploma Hlive Hrev _))).
Defined.

Lemma credential_is_immutable_witness :
  VerifiableCredential.issuer
    (VerifiableCredential._credentials
       (VerifiableCredential.run issued
          [(admin, VerifiableCredential.RemoveIssuer university);
           (admin, VerifiableCredential.IssueCredential diploma 501 "QmOther")])
       diploma)
  = VerifiableCredential.issuer (VerifiableCredential._credentials issued diploma).
Proof.
  assert (VerifiableCredential.issuer (VerifiableCredential._credentials issued diploma)
          <> address0) as Hlive
      by (vm_compute; discriminate).
  exact (proj1 (credential_is_immutable issued diploma Hlive _)).
Defined.

Lemma removed_issuer_keeps_its_credentials_witness :
  exists s1,
    VerifiableCredential.removeIssuer issued (VerifiableCredential.owner issued)
      (VerifiableCredential.issuer (VerifiableCredential._credentials issued diploma)) = Ok s1
    /\ VerifiableCredential.trustedIssuers s1
         (VerifiableCredential.issuer (VerifiableCredential._credentials issued diploma)) = false
    /\ (forall id2 subj hash,
          VerifiableCredential.issueCredential s1
            (VerifiableCredential.issuer (VerifiableCredential._credentials issued diploma))
            id2 subj hash
          = Err VerifiableCredential.NotTrustedIssuer)
    /\ VerifiableCredential.verifyCredential s1 diploma
       = (true, VerifiableCredential.issuer (VerifiableCredential._credentials issued diploma),
          VerifiableCredential.ipfsHash (VerifiableCredential._credentials issued diploma))
    /\ exists s2,
         VerifiableCredential.revokeCredential s1
           (VerifiableCredential.issuer (VerifiableCredential._credentials issued diploma))
           diploma = Ok s2
         /\ VerifiableCredential.verifyCredential s2 diploma = (false, address0, "").
Proof.
  apply (removed_issuer_keeps_its_credentials issued diploma).
  - vm_compute. discriminate.
  - vm_compute. reflexivity.
  - vm_compute. reflexivity.
Defined.

Lemma revokeCredential_failures_witness :
  VerifiableCredential.revokeCredential issued stranger 999 = Err VerifiableCredential.NotIssuer.
Proof.
  assert (stranger <> address0) as Hcaller by (vm_compute; discriminate).
  exact (proj1 (revokeCredential_failures issued stranger 999 Hcaller) eq_refl).
Defined.

Lemma addIssuer_removeIssuer_roundtrip_witness :
  exists s1 s2,
    VerifiableCredential.addIssuer issued (VerifiableCredential.owner issued) stranger = Ok s1
    /\ VerifiableCredential.trustedIssuers s1 stranger = true
    /\ VerifiableCredential.addIssuer s1 (VerifiableCredential.owner issued) stranger
       = Err VerifiableCredential.IssuerAlreadyTrusted
    /\ VerifiableCredential.removeIssuer s1 (VerifiableCredential.owner issued) stranger = Ok s2
    /\ (forall b, VerifiableCredential.trustedIssuers s2 b
                  = VerifiableCredential.trustedIssuers issued b)
    /\ VerifiableCredential._credentials s2 = VerifiableCredential._credentials issued
    /\ VerifiableCredential.owner s2 = VerifiableCredential.owner issued
    /\ VerifiableCredential.logs s2
       = (VerifiableCredential.logs issued
          ++ [VerifiableCredential.IssuerAdded stranger;
              VerifiableCredential.IssuerRemoved stranger])%list
    /\ VerifiableCredential.removeIssuer s2 (VerifiableCredential.owner issued) stranger
       = Err VerifiableCredential.IssuerNotTrusted.
Proof.
  apply (addIssuer_removeIssuer_roundtrip issued stranger).
  vm_compute. reflexivity.
Defined.

Lemma did_missing_identifier_not_found_witness :
  DIDRegistry.resolveDID registered 12345 = Err DIDRegistry.NotFound.
Proof.
  assert (DIDRegistry.controller (DIDRegistry.dids registered 12345) = address0) as Hnone
      by (vm_compute; reflexivity).
  exact (proj1 (did_missing_identifier_not_found toyHash registered 12345 Hnone)).
Defined.

Lemma did_update_resolve_roundtrip_witness :
  exists s',
    DIDRegistry.updateDID registered
      (DIDRegistry.controller (DIDRegistry.dids registered firstDID)) firstDID "QmB" = Ok s'
    /\ DIDRegistry.resolveDID s' firstDID
       = Ok (DIDRegistry.controller (DIDRegistry.dids registered firstDID), "QmB",
             DIDRegistry.Active).
Proof.
  destruct (did_update_resolve_roundtrip registered firstDID "QmB") as (s' & Hok & Hres & _).
  - vm_compute. discriminate.
  - vm_compute. reflexivity.
  - exists s'. split; [exact Hok | exact Hres].
Defined.

Lemma did_index_matches_records_witness :
  NoDup (DIDRegistry.getDIDsByOwner
           (DIDRegistry.run toyHash DIDRegistry.empty
              [(deployer, DIDRegistry.CreateDID "QmA"); (issuer2, DIDRegistry.CreateDID "QmC");
               (deployer, DIDRegistry.CreateDID "QmB")])
           deployer).
Proof.
  assert (deployer <> address0) as Howner by (vm_compute; discriminate).
  exact (proj1 (did_index_matches_records toyHash
                  [(deployer, DIDRegistry.CreateDID "QmA"); (issuer2, DIDRegistry.CreateDID "QmC");
                   (deployer, DIDRegistry.CreateDID "QmB")] deployer Howner)).
Defined.

Lemma did_accounts_are_isolated_witness :
  DIDRegistry.nonces
    (DIDRegistry.run toyHash registered
       [(issuer2, DIDRegistry.CreateDID "QmC"); (outsider, DIDRegistry.RevokeDID firstDID)])
    deployer
  = DIDRegistry.nonces registered deployer.
Proof.
  assert (Forall (fun tx : address * DIDRegistry.call => fst tx <> deployer)
            [(issuer2, DIDRegistry.CreateDID "QmC"); (outsider, DIDRegistry.RevokeDID firstDID)])
    as Hothers.
  { constructor; [vm_compute; discriminate|].
    constructor; [vm_compute; discriminate|]. constructor. }
  exact (proj1 (did_accounts_are_isolated toyHash registered _ deployer Hothers)).
Defined.

Lemma published_root_verdicts_witness :
  exists s',
    VCRegistry.issueBatchCredentials toyHash (VCRegistry.constructor toyHash deployer)
      deployer rootA = Ok s'
    /\ VCRegistry.merkleRootToIssuer s' rootA = deployer
    /\ VCRegistry.logs s'
       = (VCRegistry.logs (VCRegistry.constructor toyHash deployer)
          ++ [VCRegistry.BatchCredentialsIssued rootA deployer])%list
    /\ forall txs leaf proof,
         VCRegistry.verifyCredential toyHash (VCRegistry.run toyHash s' txs) leaf rootA proof
         = Ok (if negb (VCRegistry.isBatchCredentialRevoked (VCRegistry.run toyHash s' txs) leaf)
                  && MerkleEngine.verifyProof toyHash leaf rootA proof
               then (true, deployer)
               else (false, address0)).
Proof.
  apply (published_root_verdicts toyHash (VCRegistry.constructor toyHash deployer) deployer rootA).
  - vm_compute. reflexivity.
  - vm_compute. discriminate.
  - vm_compute. reflexivity.
Defined.

Lemma role_management_leaves_ledger_alone_witness :
  VCRegistry.verifyCredential toyHash
    (VCRegistry.run toyHash published
       [(deployer, VCRegistry.RevokeIssuerRole issuer2);
        (deployer, VCRegistry.RenounceRole VCRegistry.DEFAULT_ADMIN_ROLE deployer)])
    40 rootB (proofB 0)
  = VCRegistry.verifyCredential toyHash published 40 rootB (proofB 0).
Proof.
  assert (Forall (fun tx : address * VCRegistry.call =>
                    VCRegistryCalls.roleCall (snd tx) = true)
            [(deployer, VCRegistry.RevokeIssuerRole issuer2);
             (deployer, VCRegistry.RenounceRole VCRegistry.DEFAULT_ADMIN_ROLE deployer)])
    as Hroles.
  { constructor; [reflexivity|]. constructor; [reflexivity|]. constructor. }
  exact (proj1 (proj2 (proj2 (role_management_leaves_ledger_alone toyHash published _ Hroles)))
               40 rootB (proofB 0)).
Defined.

Lemma issuer_role_governs_publishing_witness :
  exists s1,
    VCRegistry.grantIssuerRole toyHash (VCRegistry.constructor toyHash deployer) deployer issuer2
    = Ok s1
    /\ VCRegistry.hasRole s1 (VCRegistry.ISSUER_ROLE toyHash) issuer2 = true
    /\ exists s2, VCRegistry.issueBatchCredentials toyHash s1 issuer2 rootB = Ok s2
                  /\ VCRegistry.merkleRootToIssuer s2 rootB = issuer2.
Proof.
  assert (VCRegistry.hasRole (VCRegistry.constructor toyHash deployer)
            VCRegistry.DEFAULT_ADMIN_ROLE deployer = true) as Hadmin
      by (vm_compute; reflexivity).
  assert (VCRegistry.merkleRootToIssuer (VCRegistry.constructor toyHash deployer) rootB
          = address0) as Hfree
      by (vm_compute; reflexivity).
  exact (proj1 (proj2 (issuer_role_governs_publishing toyHash _ deployer issuer2 rootB
                         Hadmin Hfree))).
Defined.


End MoreInstances.
